(** * Real-time analytics core of the markdown site

    A shallow embedding of the visit/session tracking code documented in
    "How stats work": the two backend mutations [recordPageView] and
    [heartbeat], the stale-session cleanup, and the client-side guards
    [getSessionId] and [sendHeartbeat].

    Conventions.
    - Instants and durations are [Z] milliseconds, as returned by
      [Date.now()].  One handler invocation sees one instant [now]: the
      backend runtime freezes the clock for the duration of a mutation, so
      the two [Date.now()] reads of [recordPageView] agree.
    - A table is the list of its documents in creation order.  An index
      query with equality on all index fields returns the matching
      documents in creation order; [.first()] takes the head,
      [.order("desc").first()] the last one.
    - Handlers are state transformers on [Db]; a handler that returns
      without calling [insert], [patch] or [delete] returns its input.
    - A mutation is a transaction: when the handler's promise rejects,
      the writes it made are discarded and the store is as the run found
      it ([mutation]).

    The development also covers the code around that core: the two
    client effects that drive the mutations, the title lookup of the
    stats page, the Ask AI action ([createSession], [streamResponse],
    [checkConfiguration]) and the polling loop of the search
    highlighter.
    - Text that the code slices or splits is a list of UTF-16 code
      units ([JsString]); text that is only compared is a [string].
    - What lies outside the repository is a parameter of the model: the
      search backend is its outcome (a thrown error or a result list),
      a language model is a function of the prompt, a stream that may be
      closed is the error its [appendChunk] throws. *)

From Stdlib Require Import ZArith Lia Ascii.
From stdpp Require Import base strings list gmap sorting.

Local Open Scope Z_scope.

(** ** Configuration constants *)

Definition DEDUP_WINDOW_MS : Z := 30 * 60 * 1000.
Definition SESSION_TIMEOUT_MS : Z := 2 * 60 * 1000.
Definition HEARTBEAT_DEDUP_MS : Z := 10 * 1000.
Definition HEARTBEAT_INTERVAL_MS : Z := 30 * 1000.
Definition HEARTBEAT_DEBOUNCE_MS : Z := 5 * 1000.
Definition SESSION_ID_KEY : string := "markdown_blog_session_id".

(** ** Tables *)

Module PageView.
Record t : Type := mk {
  _id : nat;
  path : string;
  pageType : string;
  sessionId : string;
  timestamp : Z
}.
End PageView.

Module ActiveSession.
Record t : Type := mk {
  _id : nat;
  sessionId : string;
  currentPath : string;
  lastSeen : Z
}.
End ActiveSession.

Record Db : Type := mkDb {
  pageViews : list PageView.t;
  activeSessions : list ActiveSession.t;
  nextId : nat
}.

Definition emptyDb : Db := mkDb [] [] 0%nat.

(** ** [ctx.db] primitives *)

(** [ctx.db.insert("pageViews", {...})]: the new document gets a fresh id
    and is the most recently created one. *)
Definition insert_pageView (path pageType sessionId : string) (timestamp : Z)
    (db : Db) : Db :=
  mkDb (pageViews db ++ [PageView.mk (nextId db) path pageType sessionId timestamp])
       (activeSessions db)
       (S (nextId db)).

(** [ctx.db.insert("activeSessions", {...})]. *)
Definition insert_activeSession (sessionId currentPath : string) (lastSeen : Z)
    (db : Db) : Db :=
  mkDb (pageViews db)
       (activeSessions db ++ [ActiveSession.mk (nextId db) sessionId currentPath lastSeen])
       (S (nextId db)).

(** The fields written by [ctx.db.patch(id, { currentPath, lastSeen })]. *)
Definition patch_fields (currentPath : string) (lastSeen : Z)
    (s : ActiveSession.t) : ActiveSession.t :=
  ActiveSession.mk (ActiveSession._id s) (ActiveSession.sessionId s) currentPath lastSeen.

(** What a patch of the document [id] does to the document [s]. *)
Definition patch_doc (id : nat) (currentPath : string) (lastSeen : Z)
    (s : ActiveSession.t) : ActiveSession.t :=
  if bool_decide (ActiveSession._id s = id)
  then patch_fields currentPath lastSeen s else s.

(** [ctx.db.patch(id, {...})] on "activeSessions": the document with that id
    is rewritten in place and keeps its position. *)
Definition patch_activeSession (id : nat) (currentPath : string) (lastSeen : Z)
    (db : Db) : Db :=
  mkDb (pageViews db)
       (patch_doc id currentPath lastSeen <$> activeSessions db)
       (nextId db).

(** [.withIndex("by_session_path", q => q.eq("sessionId", s).eq("path", p))] *)
Definition by_session_path (sessionId path : string) (db : Db) : list PageView.t :=
  filter (λ v, PageView.sessionId v = sessionId ∧ PageView.path v = path)
         (pageViews db).

(** [.withIndex("by_sessionId", q => q.eq("sessionId", s))] *)
Definition by_sessionId (sessionId : string) (db : Db) : list ActiveSession.t :=
  filter (λ s, ActiveSession.sessionId s = sessionId) (activeSessions db).

(** ** Backend mutation [recordPageView] *)

Definition recordPageView (now : Z) (path pageType sessionId : string)
    (db : Db) : Db :=
  let dedupCutoff := now - DEDUP_WINDOW_MS in
  let recentView := last (by_session_path sessionId path db) in
  if match recentView with
     | Some v => bool_decide (PageView.timestamp v > dedupCutoff)
     | None => false
     end
  then db
  else insert_pageView path pageType sessionId now db.

(** ** Backend mutation [heartbeat] *)

Definition heartbeat (now : Z) (sessionId currentPath : string) (db : Db) : Db :=
  let existingSession := head (by_sessionId sessionId db) in
  match existingSession with
  | Some ex =>
      if bool_decide (ActiveSession.currentPath ex = currentPath)
         && bool_decide (now - ActiveSession.lastSeen ex < HEARTBEAT_DEDUP_MS)
      then db
      else patch_activeSession (ActiveSession._id ex) currentPath now db
  | None => insert_activeSession sessionId currentPath now db
  end.

(** ** Stale-session cleanup *)

(** How a promise settles. *)
Inductive Settled : Type := Fulfilled | Rejected.

(** The order of the "by_lastSeen" index. *)
Definition lastSeen_le (a b : ActiveSession.t) : Prop :=
  ActiveSession.lastSeen a ≤ ActiveSession.lastSeen b.

#[global] Instance lastSeen_le_dec a b : Decision (lastSeen_le a b).
Proof. unfold lastSeen_le. apply _. Defined.

(** [.withIndex("by_lastSeen", q => q.lt("lastSeen", cutoff)).collect()]:
    the documents below the cutoff, in index order (ascending [lastSeen]). *)
Definition by_lastSeen_lt (cutoff : Z) (db : Db) : list ActiveSession.t :=
  merge_sort lastSeen_le
             (filter (λ s, ActiveSession.lastSeen s < cutoff) (activeSessions db)).

(** [ctx.db.delete(id)] on "activeSessions".  The promise rejects, and the
    table is left as it was, when the store fails to carry out this delete
    ([faulty id]) or when no document has that id. *)
Definition delete_activeSession (faulty : nat → bool) (id : nat) (db : Db)
    : Db * Settled :=
  if faulty id || negb (bool_decide (id ∈ ActiveSession._id <$> activeSessions db))
  then (db, Rejected)
  else (mkDb (pageViews db)
             (filter (λ s, ActiveSession._id s ≠ id) (activeSessions db))
             (nextId db),
        Fulfilled).

(** [staleSessions.map((s) => ctx.db.delete(s._id))]: [map] calls the
    callback on every element, so every delete is issued, in order, before
    anything is awaited. *)
Fixpoint delete_each (faulty : nat → bool) (staleSessions : list ActiveSession.t)
    (db : Db) : Db * list Settled :=
  match staleSessions with
  | [] => (db, [])
  | s :: rest =>
      let '(db1, r) := delete_activeSession faulty (ActiveSession._id s) db in
      let '(db2, rs) := delete_each faulty rest db1 in
      (db2, r :: rs)
  end.

(** [Promise.all]: fulfilled when every promise is, rejected otherwise. *)
Definition Promise_all (ps : list Settled) : Settled :=
  if forallb (λ p, match p with Fulfilled => true | Rejected => false end) ps
  then Fulfilled else Rejected.

(** The body of the cleanup mutation.  The result is the store once the
    issued deletes have taken effect, and how the awaited [Promise.all]
    settles; the body has no [catch], so a rejection is the handler's. *)
Definition cleanupStaleSessions (faulty : nat → bool) (now : Z) (db : Db)
    : Db * Settled :=
  let cutoff := now - SESSION_TIMEOUT_MS in
  let staleSessions := by_lastSeen_lt cutoff db in
  let '(db', ps) := delete_each faulty staleSessions db in
  (db', Promise_all ps).

(** An environment in which no delete fails. *)
Definition reliable : nat → bool := λ _, false.

(** What a run of a mutation leaves in the store.  The cleanup is
    registered as a mutation ("The cleanup mutation", scheduled by
    [crons.interval]), and the backend runs a mutation as one transaction:
    the writes of a handler that returns are committed together, the
    writes of a handler whose awaited promise rejects are discarded with
    it. *)
Definition mutation (handler : Db → Db * Settled) (db : Db) : Db :=
  match handler db with
  | (db', Fulfilled) => db'
  | (_, Rejected) => db
  end.

(** ** Client: session identity *)

(** JavaScript [!sessionId] for a [string | null]. *)
Definition falsy (s : option string) : bool :=
  match s with
  | None => true
  | Some v => bool_decide (v = EmptyString)
  end.

(** [generated] is the value the call [generateSessionId()] evaluates to
    when it is reached.  [localStorage.getItem] is the map lookup and
    [localStorage.setItem] the map insert. *)
Definition getSessionId (generated : string) (localStorage : gmap string string)
    : string * gmap string string :=
  let sessionId := localStorage !! SESSION_ID_KEY in
  match sessionId with
  | Some stored =>
      if falsy sessionId
      then (generated, <[SESSION_ID_KEY := generated]> localStorage)
      else (stored, localStorage)
  | None => (generated, <[SESSION_ID_KEY := generated]> localStorage)
  end.

(** ** Client: heartbeat scheduler *)

(** The refs read and written by [sendHeartbeat]. *)
Record Refs : Type := mkRefs {
  sessionIdRef : option string;
  isHeartbeatPending : bool;
  lastHeartbeatTime : Z;
  lastHeartbeatPath : option string
}.

(** The argument object of [heartbeatMutation({ sessionId, currentPath })]. *)
Record HeartbeatArgs : Type := mkHeartbeatArgs {
  arg_sessionId : string;
  arg_currentPath : string
}.

(** [sendHeartbeat(path)] up to its [await]: the guards, the ref updates and
    the mutation call it issues, if any. *)
Definition sendHeartbeat (now : Z) (path : string) (r : Refs)
    : Refs * option HeartbeatArgs :=
  let sessionId := sessionIdRef r in
  match sessionId with
  | None => (r, None)
  | Some id =>
      if falsy sessionId then (r, None)
      else if isHeartbeatPending r then (r, None)
      else if bool_decide (lastHeartbeatPath r = Some path)
              && bool_decide (now - lastHeartbeatTime r < HEARTBEAT_DEBOUNCE_MS)
      then (r, None)
      else (mkRefs (sessionIdRef r) true now (Some path),
            Some (mkHeartbeatArgs id path))
  end.

(** [sendHeartbeat] from the point where the awaited mutation settles:
    [catch {}] swallows a rejection, [finally] clears the pending flag, and
    the promise returned by [sendHeartbeat] is fulfilled. *)
Definition sendHeartbeat_settled (outcome : Settled) (r : Refs) : Refs * Settled :=
  let after_catch :=
    match outcome with
    | Fulfilled => Fulfilled
    | Rejected => Fulfilled
    end in
  (mkRefs (sessionIdRef r) false (lastHeartbeatTime r) (lastHeartbeatPath r),
   after_catch).

(** The refs as initialised by the hook, for a given session id. *)
Definition initialRefs (sessionId : option string) : Refs :=
  mkRefs sessionId false 0 None.

(** ** Sequential runs *)

(** A [recordPageView] call for a fixed [(path, sessionId)]: its instant and
    its [pageType] argument. *)
Definition recordPageView_calls (path sessionId : string)
    (calls : list (Z * string)) (db : Db) : Db :=
  foldl (λ d c, recordPageView c.1 path c.2 sessionId d) db calls.

Record HeartbeatCall : Type := mkHeartbeatCall {
  call_now : Z;
  call_sessionId : string;
  call_currentPath : string
}.

Definition heartbeat_calls (calls : list HeartbeatCall) (db : Db) : Db :=
  foldl (λ d c, heartbeat (call_now c) (call_sessionId c) (call_currentPath c) d)
        db calls.

(** ** Predicates on stores and runs *)

(** Stored view events carry non-decreasing timestamps in creation order,
    as they do when every insert stamps the current instant of a clock
    that does not run backwards. *)
Definition timestamp_le (a b : PageView.t) : Prop :=
  PageView.timestamp a ≤ PageView.timestamp b.

Definition timestamps_in_creation_order (db : Db) : Prop :=
  StronglySorted timestamp_le (pageViews db).

(** At most one session document per [sessionId]. *)
Definition at_most_one_per_session (db : Db) : Prop :=
  ∀ sessionId, (length (by_sessionId sessionId db) ≤ 1)%nat.

(** Document ids of "activeSessions" are pairwise distinct. *)
Definition unique_ids (db : Db) : Prop :=
  NoDup (ActiveSession._id <$> activeSessions db).

(** Ids were handed out by the store's counter: they are distinct and
    below the next one. *)
Definition ids_allocated (db : Db) : Prop :=
  unique_ids db
  ∧ Forall (λ s, (ActiveSession._id s < nextId db)%nat) (activeSessions db).

(** The backend entry points, and a store's history as a list of them. *)
Inductive Operation : Type :=
  | OpRecordPageView (now : Z) (path pageType sessionId : string)
  | OpHeartbeat (now : Z) (sessionId currentPath : string)
  | OpCleanup (faulty : nat → bool) (now : Z).

Definition run_operation (db : Db) (op : Operation) : Db :=
  match op with
  | OpRecordPageView now path pageType sessionId =>
      recordPageView now path pageType sessionId db
  | OpHeartbeat now sessionId currentPath =>
      heartbeat now sessionId currentPath db
  | OpCleanup faulty now => mutation (cleanupStaleSessions faulty now) db
  end.

(** The ids whose delete is carried out when a delete is issued for each
    document of [sessions]. *)
Definition deleted_ids (faulty : nat → bool) (sessions : list ActiveSession.t)
    : list nat :=
  filter (λ id, faulty id = false) (ActiveSession._id <$> sessions).

(** Every stored [lastSeen] was written at an instant not after [t]. *)
Definition written_by (t : Z) (db : Db) : Prop :=
  Forall (λ s, ActiveSession.lastSeen s ≤ t) (activeSessions db).

(** The clock read by successive calls never runs backwards, starting
    from the instant [t]. *)
Fixpoint clock_nondecreasing (t : Z) (calls : list HeartbeatCall) : Prop :=
  match calls with
  | [] => True
  | c :: rest => t ≤ call_now c ∧ clock_nondecreasing (call_now c) rest
  end.

(** The three ways through [heartbeat]. *)
Inductive heartbeat_outcome (now : Z) (sessionId currentPath : string) (db : Db)
    : Db → Prop :=
  | heartbeat_skipped ex :
      head (by_sessionId sessionId db) = Some ex →
      ActiveSession.currentPath ex = currentPath →
      now - ActiveSession.lastSeen ex < HEARTBEAT_DEDUP_MS →
      heartbeat_outcome now sessionId currentPath db db
  | heartbeat_patched ex :
      head (by_sessionId sessionId db) = Some ex →
      ¬ (ActiveSession.currentPath ex = currentPath
         ∧ now - ActiveSession.lastSeen ex < HEARTBEAT_DEDUP_MS) →
      heartbeat_outcome now sessionId currentPath db
        (patch_activeSession (ActiveSession._id ex) currentPath now db)
  | heartbeat_inserted :
      by_sessionId sessionId db = [] →
      heartbeat_outcome now sessionId currentPath db
        (insert_activeSession sessionId currentPath now db).

(** ** Client: page view recorder *)

(** The argument object of [recordPageView({ path, pageType, sessionId })]. *)
Record PageViewArgs : Type := mkPageViewArgs {
  arg_path : string;
  arg_pageType : string;
  arg_viewSessionId : string
}.

(** The body of the page-view effect, run with [location.pathname = path]:
    the new value of [lastRecordedPath.current] and the mutation call it
    issues, if any.  [getPageType] and the hook's [sessionId] are not part
    of the documented code and are taken as given. *)
Definition pageViewEffect (getPageType : string → string) (sessionId : string)
    (path : string) (lastRecordedPath : option string)
    : option string * option PageViewArgs :=
  if bool_decide (lastRecordedPath ≠ Some path)
  then (Some path, Some (mkPageViewArgs path (getPageType path) sessionId))
  else (lastRecordedPath, None).

(** The effect run once per visited path: the final ref and the calls
    issued, in order. *)
Fixpoint pageViewEffect_run (getPageType : string → string) (sessionId : string)
    (paths : list string) (lastRecordedPath : option string)
    : option string * list PageViewArgs :=
  match paths with
  | [] => (lastRecordedPath, [])
  | path :: rest =>
      let '(ref1, call) := pageViewEffect getPageType sessionId path lastRecordedPath in
      let '(ref2, calls) := pageViewEffect_run getPageType sessionId rest ref1 in
      (ref2, match call with Some c => c :: calls | None => calls end)
  end.

(** ** Client: one tab's heartbeat traffic *)

(** What happens in a tab: [sendHeartbeat(path)] runs (on mount, on a path
    change or on an interval tick) at the instant [now], or the mutation
    awaited by the oldest unsettled [sendHeartbeat] settles. *)
Inductive TabEvent : Type :=
  | Sent (now : Z) (path : string)
  | Settles (outcome : Settled).

(** The refs, the issued calls not yet settled, and the log of every call
    issued with the instant of its issue. *)
Record Tab : Type := mkTab {
  tab_refs : Refs;
  tab_inFlight : list HeartbeatArgs;
  tab_issued : list (Z * HeartbeatArgs)
}.

Definition tab_step (t : Tab) (e : TabEvent) : Tab :=
  match e with
  | Sent now path =>
      let '(refs', call) := sendHeartbeat now path (tab_refs t) in
      match call with
      | Some c => mkTab refs' (tab_inFlight t ++ [c]) (tab_issued t ++ [(now, c)])
      | None => mkTab refs' (tab_inFlight t) (tab_issued t)
      end
  | Settles outcome =>
      match tab_inFlight t with
      | [] => t
      | _ :: rest =>
          mkTab (sendHeartbeat_settled outcome (tab_refs t)).1 rest (tab_issued t)
      end
  end.

(** A freshly mounted tab. *)
Definition initialTab (sessionId : option string) : Tab :=
  mkTab (initialRefs sessionId) [] [].

(** The heartbeat effect with timers that fire on time: one call of
    [sendHeartbeat(path)] at mount and one every [HEARTBEAT_INTERVAL_MS]
    after it, each awaited mutation settling before the next tick. *)
Fixpoint heartbeatEffect_events (mounted : Z) (path : string)
    (outcomes : list Settled) : list TabEvent :=
  match outcomes with
  | [] => []
  | o :: rest =>
      Sent mounted path :: Settles o
      :: heartbeatEffect_events (mounted + HEARTBEAT_INTERVAL_MS) path rest
  end.

(** ** Stats query: title matching *)

(** The fields of a "posts" or "pages" document that title matching reads. *)
Module Content.
Record t : Type := mk {
  slug : string;
  title : string
}.
End Content.

(** [path.startsWith("/") ? path.slice(1) : path] *)
Definition slug_of_path (path : string) : string :=
  match path with
  | String "/"%char rest => rest
  | _ => path
  end.

(** The title-matching block, run with the current values [title] and
    [pageType] of the two variables it assigns. *)
Definition matchTitle (posts pages : list Content.t) (path : string)
    (title pageType : string) : string * string :=
  let slug := slug_of_path path in
  let post := head (filter (λ p, Content.slug p = slug) posts) in
  let page := head (filter (λ p, Content.slug p = slug) pages) in
  match post with
  | Some post => (Content.title post, "blog")
  | None =>
      match page with
      | Some page => (Content.title page, "page")
      | None => (title, pageType)
      end
  end.

(** ** More predicates on stores and histories *)

(** The events of every [(sessionId, path)] pair, in creation order, are
    pairwise at least [DEDUP_WINDOW_MS] apart. *)
Definition window_apart (a b : PageView.t) : Prop :=
  PageView.timestamp a + DEDUP_WINDOW_MS ≤ PageView.timestamp b.

Definition window_spaced (db : Db) : Prop :=
  ∀ sessionId path,
    StronglySorted window_apart (by_session_path sessionId path db).

(** Every cleanup of the history runs at most
    [SESSION_TIMEOUT_MS - HEARTBEAT_DEDUP_MS] after the latest heartbeat of
    [sessionId], the latest so far being at [t]. *)
Fixpoint heartbeats_in_time (sessionId : string) (t : Z)
    (history : list Operation) : Prop :=
  match history with
  | [] => True
  | OpHeartbeat now s _ :: rest =>
      heartbeats_in_time sessionId (if bool_decide (s = sessionId) then now else t) rest
  | OpCleanup _ now :: rest =>
      now - t ≤ SESSION_TIMEOUT_MS - HEARTBEAT_DEDUP_MS
      ∧ heartbeats_in_time sessionId t rest
  | OpRecordPageView _ _ _ _ :: rest => heartbeats_in_time sessionId t rest
  end.

(** The session has a document whose [lastSeen] is less than the heartbeat
    window behind [t]. *)
Definition fresh_at (sessionId : string) (t : Z) (db : Db) : Prop :=
  ∃ r, head (by_sessionId sessionId db) = Some r
       ∧ t - ActiveSession.lastSeen r < HEARTBEAT_DEDUP_MS.

(** Successive page-view calls are for different paths. *)
Definition path_changed (a b : PageViewArgs) : Prop :=
  arg_path a ≠ arg_path b.

(** Two issued heartbeat calls for the same path are at least the debounce
    window apart. *)
Definition debounced (a b : Z * HeartbeatArgs) : Prop :=
  arg_currentPath a.2 = arg_currentPath b.2 →
  HEARTBEAT_DEBOUNCE_MS ≤ b.1 - a.1.

(** The pending flag says whether a call is unsettled, and there is never
    more than one. *)
Definition one_in_flight (t : Tab) : Prop :=
  length (tab_inFlight t) = if isHeartbeatPending (tab_refs t) then 1%nat else 0%nat.

(** The time and path refs are those of the last issued call, successive
    calls are debounced, and all carry the tab's session id. *)
Definition log_in_step (sessionId : option string) (t : Tab) : Prop :=
  sessionIdRef (tab_refs t) = sessionId
  ∧ Sorted debounced (tab_issued t)
  ∧ Forall (λ c, sessionId = Some (arg_sessionId c.2)) (tab_issued t)
  ∧ ∀ c, last (tab_issued t) = Some c →
         lastHeartbeatTime (tab_refs t) = c.1
         ∧ lastHeartbeatPath (tab_refs t) = Some (arg_currentPath c.2).

(** Successive calls are at least the heartbeat window apart, the first one
    from the instant [t]. *)
Fixpoint spaced_from (t : Z) (calls : list HeartbeatCall) : Prop :=
  match calls with
  | [] => True
  | c :: rest => HEARTBEAT_DEDUP_MS ≤ call_now c - t ∧ spaced_from (call_now c) rest
  end.

(** ** Ask AI: configuration check *)

(** The object returned by [checkConfiguration]. *)
Record ConfigStatus : Type := mkConfigStatus {
  configured : bool;
  hasOpenAI : bool;
  hasAnthropic : bool;
  missingKeys : list string
}.

(** [process.env] is a map from names to strings; [!!process.env.KEY] is
    true when the variable is set to a non-empty string. *)
Definition checkConfiguration (env : gmap string string) : ConfigStatus :=
  let hasOpenAI := negb (falsy (env !! "OPENAI_API_KEY")) in
  let hasAnthropic := negb (falsy (env !! "ANTHROPIC_API_KEY")) in
  let missingKeys := [] in
  let missingKeys :=
    if negb hasOpenAI then missingKeys ++ ["OPENAI_API_KEY"] else missingKeys in
  let missingKeys :=
    if negb hasAnthropic then missingKeys ++ ["ANTHROPIC_API_KEY"] else missingKeys in
  let configured := hasOpenAI && (hasAnthropic || hasOpenAI) in
  mkConfigStatus configured hasOpenAI hasAnthropic missingKeys.

(** The condition under which the modal renders its configuration warning:
    [configChecked && configStatus && !configStatus.configured]. *)
Definition showsConfigWarning (configChecked : bool)
    (configStatus : option ConfigStatus) : bool :=
  configChecked
  && match configStatus with
     | Some status => negb (configured status)
     | None => false
     end.

(** ** Ask AI: sessions *)

Module AskAISession.
Record t : Type := mk {
  _id : nat;
  question : string;
  streamId : string;
  model : option string;
  createdAt : Z
}.
End AskAISession.

(** The "askAISessions" table in creation order, and the id counter. *)
Record AskDb : Type := mkAskDb {
  askAISessions : list AskAISession.t;
  askNextId : nat
}.

Definition DEFAULT_MODEL : string := "claude-sonnet-4-20250514".

(** [createSession({ question, model })].  [newStreamId] is the id that
    [streaming.createStream(ctx)] returns; the result is the store and the
    returned [{ sessionId, streamId }]. *)
Definition createSession (now : Z) (newStreamId : string) (question : string)
    (model : option string) (db : AskDb) : AskDb * (nat * string) :=
  let streamId := newStreamId in
  let sessionId := askNextId db in
  (mkAskDb
     (askAISessions db
      ++ [AskAISession.mk sessionId question streamId
            (Some (match model with
                   | Some m => if falsy model then DEFAULT_MODEL else m
                   | None => DEFAULT_MODEL
                   end))
            now])
     (S (askNextId db)),
   (sessionId, streamId)).

(** [getSessionByStreamId({ streamId })]: the first session of the
    "by_stream" index range, as [{ question, model }], or [null]. *)
Definition getSessionByStreamId (streamId : string) (db : AskDb)
    : option (string * option string) :=
  let session :=
    head (filter (λ s, AskAISession.streamId s = streamId) (askAISessions db)) in
  match session with
  | None => None
  | Some session => Some (AskAISession.question session, AskAISession.model session)
  end.

(** The replies that end [streamResponse] before any streaming. *)
Inductive ErrorReply : Type :=
  | InvalidJsonBody400
  | MissingStreamId400
  | SessionNotFound404.

(** [streamResponse] up to the point where it has the session: [body] is
    [None] when [request.json()] throws, otherwise the [streamId] field of
    the parsed body. *)
Definition streamResponse_session (body : option (option string)) (db : AskDb)
    : ErrorReply + (string * option string) :=
  match body with
  | None => inl InvalidJsonBody400
  | Some streamId =>
      match streamId with
      | None => inl MissingStreamId400
      | Some id =>
          if falsy streamId then inl MissingStreamId400
          else match getSessionByStreamId id db with
               | None => inl SessionNotFound404
               | Some session => inr session
               end
      end
  end.

(** ** Ask AI: generating the answer *)

(** Text that is sliced, split and streamed is a sequence of UTF-16 code
    units, as a JavaScript string is. *)
Abbreviation JsString := (list N) (only parsing).

(** A literal of the source (ASCII). *)
Definition js (s : string) : JsString :=
  N_of_ascii <$> String.list_ascii_of_string s.

Definition LF : JsString := [10%N].

(** The class [\s]: white space and line terminators. *)
Definition is_space (c : N) : bool :=
  bool_decide (c ∈ [9; 10; 11; 12; 13; 32; 160; 5760; 8232; 8233; 8239; 8287;
                    12288; 65279]%N)
  || ((8192 <=? c) && (c <=? 8202))%N.

(** [text.split(/(\s+)/)]: the maximal runs of non-space and of space code
    units, alternating, starting and ending with a (possibly empty) run of
    non-space.  [word] is the run being read, [spaces] whether it is a run
    of spaces. *)
Fixpoint split_runs (word : JsString) (spaces : bool) (text : JsString)
    : list JsString :=
  match text with
  | [] => if spaces then [word; []] else [word]
  | c :: rest =>
      if bool_decide (is_space c = spaces)
      then split_runs (word ++ [c]) spaces rest
      else word :: split_runs [c] (is_space c) rest
  end.

Definition split_words (text : JsString) : list JsString :=
  split_runs [] false text.

(** A value that was thrown: an [Error] with its message, or anything
    else. *)
Inductive Thrown : Type :=
  | ThrownError (message : JsString)
  | ThrownOther.

(** [error instanceof Error ? error.message : fallback] *)
Definition error_message (fallback : JsString) (e : Thrown) : JsString :=
  match e with
  | ThrownError message => message
  | ThrownOther => fallback
  end.

(** JavaScript truthiness of a [string | null | undefined]. *)
Definition truthy (s : option JsString) : bool :=
  match s with
  | Some (_ :: _) => true
  | _ => false
  end.

Record SearchResult : Type := mkSearchResult {
  result_title : JsString;
  result_slug : JsString;
  result_type : string;
  result_content : JsString
}.

(** A content block of the Anthropic response. *)
Record ContentBlock : Type := mkContentBlock {
  block_type : string;
  block_text : JsString
}.

(** The pre-fetch of search results.  [search] is how the embedding
    request, the two vector searches, the document fetches and the ranking
    end when they are reached: the ranked results, or a thrown value. *)
Definition prefetchSearch (env : gmap string string)
    (search : Thrown + list SearchResult)
    : list SearchResult * option JsString :=
  if falsy (env !! "OPENAI_API_KEY")
  then ([], Some (js "OPENAI_API_KEY not configured. Please add it to your Convex dashboard environment variables."))
  else match search with
       | inr results => (results, None)
       | inl e => ([], Some (error_message (js "Search failed") e))
       end.

(** The stream being written: the chunks appended so far and the number of
    [appendChunk] calls made. *)
Record Output : Type := mkOutput {
  out_chunks : list JsString;
  out_calls : nat
}.

(** How a block of statements ends. *)
Inductive Completion : Type :=
  | Normal
  | Returned
  | Threw (e : Thrown).

(** [await appendChunk(chunk)].  [closed n] tells whether the call number
    [n] throws (the stream may have been closed), and what. *)
Definition appendChunk (closed : nat → option Thrown) (chunk : JsString)
    (o : Output) : Output * Completion :=
  match closed (out_calls o) with
  | Some e => (mkOutput (out_chunks o) (S (out_calls o)), Threw e)
  | None => (mkOutput (out_chunks o ++ [chunk]) (S (out_calls o)), Normal)
  end.

(** A loop that awaits [appendChunk] on each chunk in turn. *)
Fixpoint appendEach (closed : nat → option Thrown) (chunks : list JsString)
    (o : Output) : Output * Completion :=
  match chunks with
  | [] => (o, Normal)
  | chunk :: rest =>
      match appendChunk closed chunk o with
      | (o', Normal) => appendEach closed rest o'
      | stopped => stopped
      end
  end.

(** [await appendChunk(...); return;] *)
Definition appendAndReturn (closed : nat → option Thrown) (chunk : JsString)
    (o : Output) : Output * Completion :=
  match appendChunk closed chunk o with
  | (o', Normal) => (o', Returned)
  | stopped => stopped
  end.

Definition NO_RESULTS_MESSAGE : JsString :=
  js "I couldn't find any relevant content to answer your question. Please make sure:"
  ++ LF ++ LF ++ js "1. Semantic search is enabled in siteConfig.ts"
  ++ LF ++ js "2. Content has been synced with `npm run sync`"
  ++ LF ++ js "3. OPENAI_API_KEY is configured in Convex dashboard".

(** [parts.join(sep)] *)
Fixpoint join (sep : JsString) (parts : list JsString) : JsString :=
  match parts with
  | [] => []
  | [part] => part
  | part :: rest => part ++ sep ++ join sep rest
  end.

(** The prompt sent to the model. *)
Definition fullPrompt (question : JsString) (searchResults : list SearchResult)
    : JsString :=
  let contextParts :=
    (λ r, js "## " ++ result_title r ++ LF ++ js "URL: /" ++ result_slug r
          ++ LF ++ LF ++ take 2000 (result_content r)) <$> searchResults in
  let context := join (LF ++ LF ++ js "---" ++ LF ++ LF) contextParts in
  js "Based on the following content from the website, answer this question: "
  ++ [34%N] ++ question ++ [34%N] ++ LF ++ LF ++ js "CONTEXT:" ++ LF ++ context
  ++ LF ++ LF ++ js "Please provide a helpful answer based on the context above.".

(** The line of one source citation. *)
Definition sourceLine (source : SearchResult) : JsString :=
  js "- [" ++ result_title source ++ js "](/" ++ result_slug source ++ js ")" ++ LF.

Definition SOURCES_HEADER : JsString :=
  LF ++ LF ++ js "---" ++ LF ++ LF ++ js "**Sources:**" ++ LF.

(** The two language models, as they answer a prompt: the OpenAI stream
    delivers the [delta.content] of its chunks ([None] when absent) and may
    then throw; the Anthropic call throws or returns content blocks. *)
Record Models : Type := mkModels {
  openai_stream : JsString → list (option JsString) * option Thrown;
  anthropic_create : JsString → Thrown + list ContentBlock
}.

(** The [try] block of [generateAnswer]. *)
Definition generateAnswer_try (closed : nat → option Thrown)
    (env : gmap string string) (models : Models)
    (searchError : option JsString) (searchResults : list SearchResult)
    (question : JsString) (model : option string) (o : Output)
    : Output * Completion :=
  let '(o, c) :=
    match searchError with
    | Some error =>
        if truthy searchError
        then appendAndReturn closed (js "**Error:** " ++ error) o
        else (o, Normal)
    | None => (o, Normal)
    end in
  match c with
  | Normal =>
      if bool_decide (length searchResults = 0%nat)
      then appendAndReturn closed NO_RESULTS_MESSAGE o
      else
        let prompt := fullPrompt question searchResults in
        let '(o, c) :=
          if bool_decide (model = Some "gpt-4o")
          then
            if falsy (env !! "OPENAI_API_KEY")
            then appendAndReturn closed
                   (js "**Error:** OPENAI_API_KEY not configured.") o
            else
              let '(contents, failure) := openai_stream models prompt in
              match appendEach closed
                      (omap (λ content, if truthy content then content else None)
                            contents) o with
              | (o', Normal) =>
                  (o', match failure with Some e => Threw e | None => Normal end)
              | stopped => stopped
              end
          else
            if falsy (env !! "ANTHROPIC_API_KEY")
            then appendAndReturn closed
                   (js "**Error:** ANTHROPIC_API_KEY not configured in Convex dashboard.") o
            else
              match anthropic_create models prompt with
              | inl e => (o, Threw e)
              | inr content =>
                  appendEach closed
                    (content ≫= λ block,
                       if bool_decide (block_type block = "text")
                       then split_words (block_text block) else [])
                    o
              end in
        match c with
        | Normal =>
            appendEach closed (SOURCES_HEADER :: (sourceLine <$> searchResults)) o
        | stopped => (o, stopped)
        end
  | stopped => (o, stopped)
  end.

(** [generateAnswer]: the [try] block, and the [catch] that reports what
    was thrown by one more [appendChunk], whose own failure is ignored. *)
Definition generateAnswer (closed : nat → option Thrown)
    (env : gmap string string) (models : Models)
    (searchError : option JsString) (searchResults : list SearchResult)
    (question : JsString) (model : option string) : Output :=
  let '(o, c) :=
    generateAnswer_try closed env models searchError searchResults question model
      (mkOutput [] 0%nat) in
  match c with
  | Threw error =>
      let errorMessage := error_message (js "Unknown error") error in
      (appendChunk closed (LF ++ LF ++ js "**Error:** " ++ errorMessage) o).1
  | _ => o
  end.

(** [streamResponse] from the session on: the pre-fetch, then the stream
    written by [generateAnswer]. *)
Definition streamResponse_answer (closed : nat → option Thrown)
    (env : gmap string string) (models : Models)
    (search : Thrown + list SearchResult)
    (question : JsString) (model : option string) : Output :=
  let '(searchResults, searchError) := prefetchSearch env search in
  generateAnswer closed env models searchError searchResults question model.

(** A stream that stays open. *)
Definition stays_open : nat → option Thrown := λ _, None.

(** ** Search highlighting: waiting for the content *)

Definition MAX_WAIT_TIME : Z := 5000.
Definition POLL_INTERVAL : Z := 100.

(** What [hasContent] reads of the container: the length of its trimmed
    text and the number of block elements in it. *)
Record Container : Type := mkContainer {
  trimmedTextLength : nat;
  blockElements : nat
}.

Definition hasContent (container : Container) : bool :=
  bool_decide (50 < trimmedTextLength container)%nat
  || bool_decide (0 < blockElements container)%nat.

(** How one run of [attemptHighlight] ends. *)
Inductive Attempt : Type :=
  | GaveUp
  | TriesAgain
  | Highlighted.

(** [attemptHighlight] at the instant [now]; [container] is
    [containerRef.current]. *)
Definition attemptHighlight (startTime now : Z) (container : option Container)
    : Attempt :=
  let elapsed := now - startTime in
  if bool_decide (elapsed > MAX_WAIT_TIME) then GaveUp
  else match container with
       | None => TriesAgain
       | Some c => if negb (hasContent c) then TriesAgain else Highlighted
       end.

(** The attempts made when the timer callbacks find the given instants and
    containers: a new attempt is scheduled only by one that tries again. *)
Fixpoint pollAttempts (startTime : Z) (runs : list (Z * option Container))
    : list Attempt :=
  match runs with
  | [] => []
  | (now, container) :: rest =>
      match attemptHighlight startTime now container with
      | TriesAgain => TriesAgain :: pollAttempts startTime rest
      | ended => [ended]
      end
  end.

(** Every timer callback runs at least [POLL_INTERVAL] after the instant
    [t] at which its timer was set. *)
Fixpoint timers_due (t : Z) (runs : list (Z * option Container)) : Prop :=
  match runs with
  | [] => True
  | (now, _) :: rest => t + POLL_INTERVAL ≤ now ∧ timers_due now rest
  end.

(** One visit of a session: the instant at which its [recordPageView] call
    runs, the path and the page type. *)
Record Visit : Type := mkVisit {
  visit_now : Z;
  visit_path : string;
  visit_pageType : string
}.

Definition recordPageView_visits (sessionId : string) (visits : list Visit)
    (db : Db) : Db :=
  foldl (λ d v, recordPageView (visit_now v) (visit_path v) (visit_pageType v)
                  sessionId d)
        db visits.

(** The paths in [seen] have one event each, stamped with one of the
    instants [stamps]; the other paths have none. *)
Definition one_event_each (sessionId : string) (seen : list string)
    (stamps : list Z) (db : Db) : Prop :=
  ∀ path,
    (path ∈ seen →
     ∃ v, by_session_path sessionId path db = [v] ∧ PageView.timestamp v ∈ stamps)
    ∧ (path ∉ seen → by_session_path sessionId path db = []).

(** * Page views: the windowed append log *)

Section PageViews.

Implicit Types (db : Db) (path pageType sessionId : string) (now : Z).

Lemma by_session_path_insert path pageType sessionId now db :
  by_session_path sessionId path (insert_pageView path pageType sessionId now db)
  = by_session_path sessionId path db
    ++ [PageView.mk (nextId db) path pageType sessionId now].
Proof.
  unfold by_session_path, insert_pageView; simpl.
  rewrite filter_app, filter_cons_True by (simpl; tauto).
  reflexivity.
Qed.

(** The three ways through the duplicate test. *)

Lemma recordPageView_no_recent now path pageType sessionId db :
  last (by_session_path sessionId path db) = None →
  recordPageView now path pageType sessionId db
  = insert_pageView path pageType sessionId now db.
Proof. intros H. unfold recordPageView. rewrite H. reflexivity. Qed.

Lemma recordPageView_outside now path pageType sessionId db v :
  last (by_session_path sessionId path db) = Some v →
  PageView.timestamp v ≤ now - DEDUP_WINDOW_MS →
  recordPageView now path pageType sessionId db
  = insert_pageView path pageType sessionId now db.
Proof.
  intros H Hle. unfold recordPageView. rewrite H.
  rewrite bool_decide_eq_false_2 by lia. reflexivity.
Qed.

Lemma recordPageView_duplicate now path pageType sessionId db v :
  last (by_session_path sessionId path db) = Some v →
  now - DEDUP_WINDOW_MS < PageView.timestamp v →
  recordPageView now path pageType sessionId db = db.
Proof.
  intros H Hlt. unfold recordPageView. rewrite H.
  rewrite bool_decide_eq_true_2 by lia. reflexivity.
Qed.


End PageViews.



(** C6. View dedup window boundary: when a call at [t0] inserts an event,
    a following call for the same [(path, sessionId)] at
    [t0 + DEDUP_WINDOW_MS + eps], [eps > 0], inserts a second one; the two
    events are stored after whatever the store held for the pair. *)
Theorem view_window_boundary path sessionId pageType1 pageType2 t0 eps db :
  0 < eps →
  recordPageView t0 path pageType1 sessionId db
    = insert_pageView path pageType1 sessionId t0 db →
  let db1 := recordPageView t0 path pageType1 sessionId db in
  let db2 := recordPageView (t0 + DEDUP_WINDOW_MS + eps) path pageType2 sessionId db1 in
  db2 = insert_pageView path pageType2 sessionId (t0 + DEDUP_WINDOW_MS + eps) db1
  ∧ by_session_path sessionId path db2
    = by_session_path sessionId path db
      ++ [PageView.mk (nextId db) path pageType1 sessionId t0;
          PageView.mk (S (nextId db)) path pageType2 sessionId
            (t0 + DEDUP_WINDOW_MS + eps)].
Proof.
  intros Heps Hfirst db1 db2.
  assert (Hlast : last (by_session_path sessionId path db1)
                  = Some (PageView.mk (nextId db) path pageType1 sessionId t0)).
  { unfold db1. rewrite Hfirst, by_session_path_insert. apply last_snoc. }
  assert (Hsecond : db2 = insert_pageView path pageType2 sessionId
                            (t0 + DEDUP_WINDOW_MS + eps) db1).
  { unfold db2. eapply recordPageView_outside; [exact Hlast|]. simpl. lia. }
  split; [exact Hsecond|].
  rewrite Hsecond, by_session_path_insert.
  unfold db1. rewrite Hfirst, by_session_path_insert. simpl.
  rewrite <- app_assoc. reflexivity.
Qed.

Lemma view_window_boundary_witness :
  0 < 60000
  ∧ recordPageView 0 "/docs" "page" "S1" emptyDb
    = insert_pageView "/docs" "page" "S1" 0 emptyDb
  ∧ by_session_path "S1" "/docs"
      (recordPageView (0 + DEDUP_WINDOW_MS + 60000) "/docs" "page" "S1"
         (recordPageView 0 "/docs" "page" "S1" emptyDb))
    = [PageView.mk 0 "/docs" "page" "S1" 0;
       PageView.mk 1 "/docs" "page" "S1" (0 + DEDUP_WINDOW_MS + 60000)].
Proof.
  assert (H1 : 0 < 60000) by lia.
  assert (H2 : recordPageView 0 "/docs" "page" "S1" emptyDb
               = insert_pageView "/docs" "page" "S1" 0 emptyDb) by reflexivity.
  split; [exact H1|]. split; [exact H2|].
  exact (proj2 (view_window_boundary "/docs" "S1" "page" "page" 0 60000
                  emptyDb H1 H2)).
Defined.

(** C8. Exact boundary of the view dedup window: the duplicate test is the
    strict [recentView.timestamp > now - DEDUP_WINDOW_MS], so when the most
    recent stored event for [(sessionId, path)] is exactly
    [DEDUP_WINDOW_MS] old the call is not a duplicate and inserts; both
    events are then stored. *)
Theorem view_exact_boundary path pageType sessionId now v db :
  last (by_session_path sessionId path db) = Some v →
  PageView.timestamp v = now - DEDUP_WINDOW_MS →
  recordPageView now path pageType sessionId db
    = insert_pageView path pageType sessionId now db
  ∧ ∃ earlier,
      by_session_path sessionId path
        (recordPageView now path pageType sessionId db)
      = earlier ++ [v; PageView.mk (nextId db) path pageType sessionId now].
Proof.
  intros Hlast Hts.
  assert (Hins : recordPageView now path pageType sessionId db
                 = insert_pageView path pageType sessionId now db).
  { eapply recordPageView_outside; [exact Hlast|]. lia. }
  split; [exact Hins|].
  apply last_Some in Hlast as [earlier Hearlier].
  exists earlier.
  rewrite Hins, by_session_path_insert, Hearlier, <- app_assoc. reflexivity.
Qed.

Lemma view_exact_boundary_witness :
  let db := recordPageView 0 "/docs" "page" "S1" emptyDb in
  let v := PageView.mk 0 "/docs" "page" "S1" 0 in
  last (by_session_path "S1" "/docs" db) = Some v
  ∧ PageView.timestamp v = 1800000 - DEDUP_WINDOW_MS
  ∧ recordPageView 1800000 "/docs" "page" "S1" db
    = insert_pageView "/docs" "page" "S1" 1800000 db.
Proof.
  intros db v.
  assert (H1 : last (by_session_path "S1" "/docs" db) = Some v) by reflexivity.
  assert (H2 : PageView.timestamp v = 1800000 - DEDUP_WINDOW_MS) by reflexivity.
  split; [exact H1|]. split; [exact H2|].
  exact (proj1 (view_exact_boundary "/docs" "page" "S1" 1800000 v db H1 H2)).
Defined.

(** * Index order and timestamp order

    [recordPageView] reads the last created event of the pair.  While
    timestamps are non-decreasing in creation order that event is also one
    of greatest timestamp, so "most recent" can be read either way. *)

Section MostRecent.

Implicit Types (db : Db) (path pageType sessionId : string) (now : Z).

Lemma recentView_latest_timestamp sessionId path db v :
  timestamps_in_creation_order db →
  last (by_session_path sessionId path db) = Some v →
  Forall (λ u, PageView.timestamp u ≤ PageView.timestamp v)
         (by_session_path sessionId path db).
Proof.
  unfold timestamps_in_creation_order, by_session_path.
  induction (pageViews db) as [|x l IH] using rev_ind; intros Hsorted Hlast.
  - constructor.
  - apply StronglySorted_app in Hsorted as (Hle & Hl & _).
    rewrite filter_app in Hlast |- *.
    destruct (decide (PageView.sessionId x = sessionId ∧ PageView.path x = path))
      as [Hx|Hx].
    + rewrite filter_cons_True in Hlast |- * by exact Hx.
      rewrite filter_nil in Hlast |- *.
      rewrite last_snoc in Hlast. injection Hlast as <-.
      apply Forall_app. split; [|constructor; [lia|constructor]].
      apply Forall_forall. intros u Hu.
      apply list_elem_of_filter in Hu as [_ Hu].
      apply (Hle u x Hu). left.
    + rewrite filter_cons_False in Hlast |- * by exact Hx.
      rewrite filter_nil, app_nil_r in Hlast |- *. by apply IH.
Qed.

Lemma recordPageView_keeps_order now path pageType sessionId db :
  timestamps_in_creation_order db →
  Forall (λ u, PageView.timestamp u ≤ now) (pageViews db) →
  timestamps_in_creation_order (recordPageView now path pageType sessionId db)
  ∧ Forall (λ u, PageView.timestamp u ≤ now)
           (pageViews (recordPageView now path pageType sessionId db)).
Proof.
  intros Hsorted Hpast. unfold recordPageView.
  destruct (match last (by_session_path sessionId path db) with
            | Some v => bool_decide (PageView.timestamp v > now - DEDUP_WINDOW_MS)
            | None => false
            end); [auto|].
  unfold timestamps_in_creation_order. simpl. split.
  - apply StronglySorted_app_2; [|exact Hsorted|repeat constructor].
    intros u x Hu Hx. apply list_elem_of_singleton in Hx as ->.
    rewrite Forall_forall in Hpast. apply (Hpast u Hu).
  - apply Forall_app. split; [exact Hpast|].
    constructor; [simpl; lia|constructor].
Qed.

End MostRecent.

(** * Session liveness: upsert with short-circuit *)

Section Sessions.

Implicit Types (db : Db) (sessionId currentPath : string) (now : Z).

Lemma heartbeat_cases now sessionId currentPath db :
  heartbeat_outcome now sessionId currentPath db
    (heartbeat now sessionId currentPath db).
Proof.
  unfold heartbeat.
  destruct (head (by_sessionId sessionId db)) as [ex|] eqn:Hhead.
  - destruct (decide (ActiveSession.currentPath ex = currentPath)) as [Hp|Hp];
      [destruct (decide (now - ActiveSession.lastSeen ex < HEARTBEAT_DEDUP_MS))
         as [Ht|Ht]|].
    + rewrite !bool_decide_eq_true_2 by assumption. simpl.
      eapply heartbeat_skipped; eassumption.
    + rewrite (bool_decide_eq_false_2 (_ < _)) by assumption.
      rewrite andb_false_r.
      apply heartbeat_patched; [assumption|tauto].
    + rewrite (bool_decide_eq_false_2 (_ = _)) by assumption. simpl.
      apply heartbeat_patched; [assumption|tauto].
  - apply heartbeat_inserted. by apply head_None.
Qed.

(** A patch keeps every document's [sessionId], so it commutes with the
    "by_sessionId" index. *)
Lemma by_sessionId_patch sessionId id currentPath now db :
  by_sessionId sessionId (patch_activeSession id currentPath now db)
  = patch_doc id currentPath now <$> by_sessionId sessionId db.
Proof.
  unfold by_sessionId, patch_activeSession; simpl.
  induction (activeSessions db) as [|s l IH]; [reflexivity|].
  rewrite fmap_cons.
  assert (Hsid : ActiveSession.sessionId (patch_doc id currentPath now s)
                 = ActiveSession.sessionId s).
  { unfold patch_doc. destruct (bool_decide _); reflexivity. }
  destruct (decide (ActiveSession.sessionId s = sessionId)) as [Heq|Hne].
  - rewrite !filter_cons_True by congruence. rewrite fmap_cons, IH. reflexivity.
  - rewrite !filter_cons_False by congruence. exact IH.
Qed.

Lemma by_sessionId_insert_same sessionId currentPath now db :
  by_sessionId sessionId (insert_activeSession sessionId currentPath now db)
  = by_sessionId sessionId db
    ++ [ActiveSession.mk (nextId db) sessionId currentPath now].
Proof.
  unfold by_sessionId, insert_activeSession; simpl.
  rewrite filter_app, filter_cons_True by reflexivity. reflexivity.
Qed.

Lemma by_sessionId_insert_other sessionId other currentPath now db :
  other ≠ sessionId →
  by_sessionId other (insert_activeSession sessionId currentPath now db)
  = by_sessionId other db.
Proof.
  intros Hne. unfold by_sessionId, insert_activeSession; simpl.
  rewrite filter_app, filter_cons_False by (simpl; congruence).
  apply app_nil_r.
Qed.

Lemma heartbeat_preserves_uniqueness now sessionId currentPath db :
  at_most_one_per_session db →
  at_most_one_per_session (heartbeat now sessionId currentPath db).
Proof.
  intros Huniq other.
  destruct (heartbeat_cases now sessionId currentPath db) as [ex _ _ _|ex _ _|Hnone].
  - apply Huniq.
  - rewrite by_sessionId_patch, length_fmap. apply Huniq.
  - destruct (decide (other = sessionId)) as [->|Hne].
    + rewrite by_sessionId_insert_same, Hnone. simpl. lia.
    + rewrite by_sessionId_insert_other by assumption. apply Huniq.
Qed.

End Sessions.

(** C2. Heartbeat upsert uniqueness: if the store holds at most one session
    document per [sessionId], it still does after any sequence of
    [heartbeat] calls (any sessions, paths and instants); each call skips,
    patches the found document in place, or inserts when the index lookup
    found none. *)
Theorem heartbeat_upsert_uniqueness (calls : list HeartbeatCall) db :
  at_most_one_per_session db →
  at_most_one_per_session (heartbeat_calls calls db)
  ∧ (∀ now sessionId currentPath db',
       heartbeat_outcome now sessionId currentPath db'
         (heartbeat now sessionId currentPath db')).
Proof.
  intros Huniq. split; [|apply heartbeat_cases].
  revert db Huniq.
  induction calls as [|c calls IH]; intros db Huniq; [exact Huniq|].
  apply IH. by apply heartbeat_preserves_uniqueness.
Qed.

Lemma heartbeat_upsert_uniqueness_witness :
  at_most_one_per_session emptyDb
  ∧ at_most_one_per_session
      (heartbeat_calls
         [mkHeartbeatCall 0 "S1" "/blog/a"; mkHeartbeatCall 5000 "S1" "/blog/a";
          mkHeartbeatCall 31000 "S1" "/blog/b"; mkHeartbeatCall 31000 "S2" "/"]
         emptyDb).
Proof.
  assert (H : at_most_one_per_session emptyDb).
  { intros sessionId. simpl. lia. }
  split; [exact H|].
  exact (proj1 (heartbeat_upsert_uniqueness
           [mkHeartbeatCall 0 "S1" "/blog/a"; mkHeartbeatCall 5000 "S1" "/blog/a";
            mkHeartbeatCall 31000 "S1" "/blog/b"; mkHeartbeatCall 31000 "S2" "/"]
           emptyDb H)).
Defined.

Section ShortCircuit.

Implicit Types (db : Db) (sessionId currentPath : string) (now : Z).

Lemma heartbeat_skip now sessionId currentPath db ex :
  head (by_sessionId sessionId db) = Some ex →
  ActiveSession.currentPath ex = currentPath →
  now - ActiveSession.lastSeen ex < HEARTBEAT_DEDUP_MS →
  heartbeat now sessionId currentPath db = db.
Proof.
  intros Hhead Hp Ht. unfold heartbeat. rewrite Hhead.
  rewrite !bool_decide_eq_true_2 by assumption. reflexivity.
Qed.

Lemma patch_doc_self currentPath now (s : ActiveSession.t) :
  patch_doc (ActiveSession._id s) currentPath now s
  = patch_fields currentPath now s.
Proof. unfold patch_doc. rewrite bool_decide_eq_true_2; reflexivity. Qed.

(** What the index lookup of the call's own session finds after a call
    that wrote. *)
Lemma heartbeat_written_lookup now sessionId currentPath db :
  heartbeat now sessionId currentPath db ≠ db →
  ∃ r, head (by_sessionId sessionId (heartbeat now sessionId currentPath db))
       = Some r
       ∧ ActiveSession.sessionId r = sessionId
       ∧ ActiveSession.currentPath r = currentPath
       ∧ ActiveSession.lastSeen r = now.
Proof.
  intros Hwrote.
  pose proof (heartbeat_cases now sessionId currentPath db) as Hc.
  remember (heartbeat now sessionId currentPath db) as db1 eqn:E.
  destruct Hc as [ex _ _ _|ex Hhead _|Hnone].
  - congruence.
  - rewrite by_sessionId_patch.
    destruct (by_sessionId sessionId db) as [|s l] eqn:Hl; [discriminate|].
    simpl in Hhead. injection Hhead as ->.
    assert (Hin : ex ∈ by_sessionId sessionId db) by (rewrite Hl; left).
    apply list_elem_of_filter in Hin as [Hsid _].
    rewrite fmap_cons, patch_doc_self. simpl.
    eexists; split; [reflexivity|]. simpl. auto.
  - rewrite by_sessionId_insert_same, Hnone. simpl.
    eexists; split; [reflexivity|]. simpl. auto.
Qed.

End ShortCircuit.

(** C3 as stated fails: a call that was itself short-circuited does not
    restart the window.  After a heartbeat at 0, the call at 9000 is skipped
    and the call at 12000, 3 seconds later, patches [lastSeen] to 12000. *)
Lemma heartbeat_short_circuit_counterexample :
  12000 - 9000 < HEARTBEAT_DEDUP_MS
  ∧ activeSessions
      (heartbeat 9000 "S1" "/blog/a" (heartbeat 0 "S1" "/blog/a" emptyDb))
    = [ActiveSession.mk 0 "S1" "/blog/a" 0]
  ∧ activeSessions
      (heartbeat 12000 "S1" "/blog/a"
         (heartbeat 9000 "S1" "/blog/a" (heartbeat 0 "S1" "/blog/a" emptyDb)))
    = [ActiveSession.mk 0 "S1" "/blog/a" 12000]
  ∧ ¬ (∀ sessionId currentPath t1 t2 db,
         t2 - t1 < HEARTBEAT_DEDUP_MS →
         heartbeat t2 sessionId currentPath (heartbeat t1 sessionId currentPath db)
         = heartbeat t1 sessionId currentPath db).
Proof.
  split; [reflexivity|]. split; [reflexivity|]. split; [reflexivity|].
  intros H.
  specialize (H "S1" "/blog/a" 9000 12000 (heartbeat 0 "S1" "/blog/a" emptyDb)).
  assert (Hlt : 12000 - 9000 < HEARTBEAT_DEDUP_MS) by reflexivity.
  specialize (H Hlt). vm_compute in H. discriminate H.
Qed.

(** C3, amended. Heartbeat short-circuit: if [heartbeat(s, p)] at [t1]
    writes (inserts or patches, so that it sets [lastSeen] to [t1]) and
    runs again at [t2] with [t2 - t1 < HEARTBEAT_DEDUP_MS], the second call
    returns the store of the first call unchanged, in which the session's
    document has [lastSeen = t1]. *)
Theorem heartbeat_short_circuit sessionId currentPath t1 t2 db :
  heartbeat t1 sessionId currentPath db ≠ db →
  t2 - t1 < HEARTBEAT_DEDUP_MS →
  heartbeat t2 sessionId currentPath (heartbeat t1 sessionId currentPath db)
    = heartbeat t1 sessionId currentPath db
  ∧ ∃ r,
      head (by_sessionId sessionId
              (heartbeat t2 sessionId currentPath
                 (heartbeat t1 sessionId currentPath db))) = Some r
      ∧ ActiveSession.currentPath r = currentPath
      ∧ ActiveSession.lastSeen r = t1.
Proof.
  intros Hwrote Hwin.
  destruct (heartbeat_written_lookup t1 sessionId currentPath db Hwrote)
    as (r & Hhead & _ & Hp & Hseen).
  assert (Hskip : heartbeat t2 sessionId currentPath
                    (heartbeat t1 sessionId currentPath db)
                  = heartbeat t1 sessionId currentPath db).
  { eapply heartbeat_skip; [exact Hhead|exact Hp|]. rewrite Hseen. exact Hwin. }
  split; [exact Hskip|].
  exists r. rewrite Hskip. auto.
Qed.

Lemma heartbeat_short_circuit_witness :
  heartbeat 0 "S1" "/blog/a" emptyDb ≠ emptyDb
  ∧ 5000 - 0 < HEARTBEAT_DEDUP_MS
  ∧ heartbeat 5000 "S1" "/blog/a" (heartbeat 0 "S1" "/blog/a" emptyDb)
    = heartbeat 0 "S1" "/blog/a" emptyDb.
Proof.
  assert (H1 : heartbeat 0 "S1" "/blog/a" emptyDb ≠ emptyDb) by discriminate.
  assert (H2 : 5000 - 0 < HEARTBEAT_DEDUP_MS) by reflexivity.
  split; [exact H1|]. split; [exact H2|].
  exact (proj1 (heartbeat_short_circuit "S1" "/blog/a" 0 5000 emptyDb H1 H2)).
Defined.

Section LastSeen.

Implicit Types (db : Db) (sessionId currentPath : string) (now : Z).

Lemma head_by_sessionId sessionId db r :
  head (by_sessionId sessionId db) = Some r →
  ActiveSession.sessionId r = sessionId ∧ r ∈ activeSessions db.
Proof.
  intros H. apply head_Some_elem_of in H.
  by apply list_elem_of_filter in H.
Qed.

(** One call, seen from the document the index finds for any session. *)
Lemma heartbeat_lookup_step now sessionId currentPath db other r :
  head (by_sessionId other db) = Some r →
  ∃ r', head (by_sessionId other (heartbeat now sessionId currentPath db))
        = Some r'
        ∧ (r' = r ∨ r' = patch_fields currentPath now r).
Proof.
  intros Hhead.
  destruct (heartbeat_cases now sessionId currentPath db) as [ex _ _ _|ex _ _|Hnone].
  - eauto.
  - rewrite by_sessionId_patch.
    destruct (by_sessionId other db) as [|s l]; [discriminate|].
    simpl in Hhead. injection Hhead as ->.
    rewrite fmap_cons. simpl. eexists; split; [reflexivity|].
    unfold patch_doc. destruct (bool_decide _); auto.
  - destruct (decide (other = sessionId)) as [->|Hne].
    + rewrite Hnone in Hhead. discriminate.
    + rewrite by_sessionId_insert_other by assumption. eauto.
Qed.

Lemma heartbeat_written_by t now sessionId currentPath db :
  written_by t db → t ≤ now →
  written_by now (heartbeat now sessionId currentPath db).
Proof.
  unfold written_by. intros Hdb Hle.
  assert (Hnow : Forall (λ s, ActiveSession.lastSeen s ≤ now) (activeSessions db)).
  { eapply Forall_impl; [exact Hdb|]. simpl. intros s Hs. lia. }
  destruct (heartbeat_cases now sessionId currentPath db) as [ex _ _ _|ex _ _|_].
  - exact Hnow.
  - simpl. apply Forall_fmap. eapply Forall_impl; [exact Hnow|].
    intros s Hs. unfold compose, patch_doc.
    destruct (bool_decide _); simpl in *; lia.
  - simpl. apply Forall_app. split; [exact Hnow|].
    constructor; [simpl; lia|constructor].
Qed.

Lemma heartbeat_calls_app pre post db :
  heartbeat_calls (pre ++ post) db = heartbeat_calls post (heartbeat_calls pre db).
Proof. apply foldl_app. Qed.

(** After a prefix of a run under a non-decreasing clock, the store was
    written no later than some instant from which the clock of the rest of
    the run still does not run backwards. *)
Lemma heartbeat_calls_written_by t pre post db :
  written_by t db → clock_nondecreasing t (pre ++ post) →
  ∃ t', written_by t' (heartbeat_calls pre db) ∧ clock_nondecreasing t' post.
Proof.
  revert t db. induction pre as [|c pre IH]; intros t db Hdb Hclock.
  - exists t. auto.
  - destruct Hclock as [Hle Hrest].
    apply (IH (call_now c)); [|exact Hrest].
    eapply heartbeat_written_by; eassumption.
Qed.

Lemma heartbeat_calls_monotone t calls db sessionId r :
  written_by t db → clock_nondecreasing t calls →
  head (by_sessionId sessionId db) = Some r →
  ∃ r', head (by_sessionId sessionId (heartbeat_calls calls db)) = Some r'
        ∧ ActiveSession.lastSeen r ≤ ActiveSession.lastSeen r'.
Proof.
  revert t db r. induction calls as [|c calls IH]; intros t db r Hdb Hclock Hhead.
  - exists r. split; [exact Hhead|lia].
  - destruct Hclock as [Hle Hrest].
    destruct (heartbeat_lookup_step (call_now c) (call_sessionId c)
                (call_currentPath c) db sessionId r Hhead) as (r1 & Hhead1 & Hr1).
    destruct (IH (call_now c) _ r1
                (heartbeat_written_by t _ _ _ db Hdb Hle) Hrest Hhead1)
      as (r' & Hhead' & Hmono).
    exists r'. split; [exact Hhead'|].
    assert (Hr : ActiveSession.lastSeen r ≤ t).
    { destruct (head_by_sessionId _ _ _ Hhead) as [_ Hin].
      unfold written_by in Hdb. rewrite Forall_forall in Hdb. by apply Hdb. }
    destruct Hr1 as [->| ->]; simpl in *; lia.
Qed.

End LastSeen.

(** C10. Monotone [lastSeen]: a [heartbeat] call for a session with a
    document either returns the store unchanged or leaves that document
    with [lastSeen] set to the call's instant and [currentPath] to the
    call's path, written together; and under a clock that does not run
    backwards (every stored [lastSeen] was written no later than [t], and
    the calls' instants are non-decreasing from [t]) the [lastSeen] of a
    session's document at any point of a run of heartbeats is at most its
    [lastSeen] at any later point. *)
Theorem heartbeat_lastSeen_monotone t (pre post : list HeartbeatCall) db
    sessionId r :
  written_by t db →
  clock_nondecreasing t (pre ++ post) →
  head (by_sessionId sessionId (heartbeat_calls pre db)) = Some r →
  (∃ r', head (by_sessionId sessionId (heartbeat_calls (pre ++ post) db))
         = Some r'
         ∧ ActiveSession.lastSeen r ≤ ActiveSession.lastSeen r')
  ∧ (∀ now currentPath,
       heartbeat now sessionId currentPath (heartbeat_calls pre db)
         = heartbeat_calls pre db
       ∨ head (by_sessionId sessionId
                 (heartbeat now sessionId currentPath (heartbeat_calls pre db)))
         = Some (ActiveSession.mk (ActiveSession._id r) sessionId currentPath now)).
Proof.
  intros Hdb Hclock Hhead. split.
  - destruct (heartbeat_calls_written_by t pre post db Hdb Hclock)
      as (t' & Hdb' & Hclock').
    rewrite heartbeat_calls_app.
    eapply heartbeat_calls_monotone; eassumption.
  - intros now currentPath.
    pose proof (heartbeat_cases now sessionId currentPath (heartbeat_calls pre db))
      as Hc.
    remember (heartbeat now sessionId currentPath (heartbeat_calls pre db))
      as db1 eqn:E.
    destruct Hc as [ex _ _ _|ex Hex _|Hnone].
    + left. reflexivity.
    + right. rewrite Hhead in Hex. injection Hex as <-.
      rewrite by_sessionId_patch.
      destruct (head_by_sessionId _ _ _ Hhead) as [Hsid _].
      destruct (by_sessionId sessionId (heartbeat_calls pre db)) as [|s l];
        [discriminate|].
      simpl in Hhead. injection Hhead as ->.
      rewrite fmap_cons, patch_doc_self. simpl.
      unfold patch_fields. rewrite Hsid. reflexivity.
    + rewrite Hnone in Hhead. discriminate.
Qed.

Lemma heartbeat_lastSeen_monotone_witness :
  written_by 0 emptyDb
  ∧ clock_nondecreasing 0
      ([mkHeartbeatCall 0 "S1" "/blog/a"]
       ++ [mkHeartbeatCall 5000 "S1" "/blog/a";
           mkHeartbeatCall 31000 "S1" "/blog/b"])
  ∧ head (by_sessionId "S1"
            (heartbeat_calls [mkHeartbeatCall 0 "S1" "/blog/a"] emptyDb))
    = Some (ActiveSession.mk 0 "S1" "/blog/a" 0)
  ∧ ∃ r',
      head (by_sessionId "S1"
              (heartbeat_calls
                 ([mkHeartbeatCall 0 "S1" "/blog/a"]
                  ++ [mkHeartbeatCall 5000 "S1" "/blog/a";
                      mkHeartbeatCall 31000 "S1" "/blog/b"]) emptyDb))
      = Some r'
      ∧ ActiveSession.lastSeen (ActiveSession.mk 0 "S1" "/blog/a" 0)
        ≤ ActiveSession.lastSeen r'.
Proof.
  assert (H1 : written_by 0 emptyDb) by constructor.
  assert (H2 : clock_nondecreasing 0
                 ([mkHeartbeatCall 0 "S1" "/blog/a"]
                  ++ [mkHeartbeatCall 5000 "S1" "/blog/a";
                      mkHeartbeatCall 31000 "S1" "/blog/b"])).
  { simpl. lia. }
  assert (H3 : head (by_sessionId "S1"
                       (heartbeat_calls [mkHeartbeatCall 0 "S1" "/blog/a"] emptyDb))
               = Some (ActiveSession.mk 0 "S1" "/blog/a" 0)) by reflexivity.
  split; [exact H1|]. split; [exact H2|]. split; [exact H3|].
  exact (proj1 (heartbeat_lastSeen_monotone 0
                  [mkHeartbeatCall 0 "S1" "/blog/a"]
                  [mkHeartbeatCall 5000 "S1" "/blog/a";
                   mkHeartbeatCall 31000 "S1" "/blog/b"]
                  emptyDb "S1" (ActiveSession.mk 0 "S1" "/blog/a" 0) H1 H2 H3)).
Defined.

(** * Stale-session reaper *)

Section Reaper.

Implicit Types (db : Db) (faulty : nat → bool) (now : Z).

Lemma filter_ext_elem {A} (P Q : A → Prop)
    `{!∀ x, Decision (P x), !∀ x, Decision (Q x)} (l : list A) :
  (∀ x, x ∈ l → P x ↔ Q x) → filter P l = filter Q l.
Proof.
  induction l as [|a l IH]; intros Hiff; [reflexivity|].
  assert (Ha : P a ↔ Q a) by (apply Hiff; left).
  assert (Hl : filter P l = filter Q l).
  { apply IH. intros x Hx. apply Hiff. by right. }
  destruct (decide (P a)).
  - rewrite !filter_cons_True by tauto. by rewrite Hl.
  - rewrite !filter_cons_False by tauto. exact Hl.
Qed.

Lemma filter_all {A} (P : A → Prop) `{!∀ x, Decision (P x)} (l : list A) :
  (∀ x, x ∈ l → P x) → filter P l = l.
Proof.
  induction l as [|a l IH]; intros Hall; [reflexivity|].
  rewrite filter_cons_True by (apply Hall; left).
  rewrite IH; [reflexivity|]. intros x Hx. apply Hall. by right.
Qed.

(** Distinct ids: two documents of the table with the same id are the same
    document. *)
Lemma unique_ids_inj db (a b : ActiveSession.t) :
  unique_ids db →
  a ∈ activeSessions db → b ∈ activeSessions db →
  ActiveSession._id a = ActiveSession._id b → a = b.
Proof.
  unfold unique_ids. induction (activeSessions db) as [|s l IH]; intros Hnd Ha Hb Hid.
  - inversion Ha.
  - rewrite fmap_cons in Hnd. apply NoDup_cons in Hnd as [Hs Hnd].
    apply elem_of_cons in Ha as [->|Ha]; apply elem_of_cons in Hb as [->|Hb].
    + reflexivity.
    + exfalso. apply Hs. rewrite Hid. by apply list_elem_of_fmap_2.
    + exfalso. apply Hs. rewrite <- Hid. by apply list_elem_of_fmap_2.
    + by apply IH.
Qed.

(** One issued delete: the table loses the document with that id unless the
    store fails to carry the delete out; nothing else changes. *)
Lemma delete_activeSession_rows faulty id db :
  activeSessions (delete_activeSession faulty id db).1
  = (if faulty id then activeSessions db
     else filter (λ s, ActiveSession._id s ≠ id) (activeSessions db))
  ∧ pageViews (delete_activeSession faulty id db).1 = pageViews db
  ∧ nextId (delete_activeSession faulty id db).1 = nextId db.
Proof.
  unfold delete_activeSession.
  destruct (faulty id); simpl; [auto|].
  destruct (decide (id ∈ ActiveSession._id <$> activeSessions db)) as [Hin|Hout].
  - rewrite bool_decide_eq_true_2 by assumption. simpl. auto.
  - rewrite bool_decide_eq_false_2 by assumption. simpl.
    split; [|auto]. symmetry. apply filter_all.
    intros s Hs Hid. apply Hout. rewrite <- Hid. by apply list_elem_of_fmap_2.
Qed.

Lemma delete_each_cons faulty s rest db :
  (delete_each faulty (s :: rest) db).1
  = (delete_each faulty rest
       (delete_activeSession faulty (ActiveSession._id s) db).1).1.
Proof.
  simpl. destruct (delete_activeSession faulty (ActiveSession._id s) db) as [db1 r].
  simpl. destruct (delete_each faulty rest db1) as [db2 rs]. reflexivity.
Qed.

(** All the deletes are issued: the table loses exactly the documents whose
    delete was carried out, whichever of the other deletes failed. *)
Lemma delete_each_rows faulty sessions db :
  activeSessions (delete_each faulty sessions db).1
  = filter (λ s, ActiveSession._id s ∉ deleted_ids faulty sessions)
           (activeSessions db)
  ∧ pageViews (delete_each faulty sessions db).1 = pageViews db
  ∧ nextId (delete_each faulty sessions db).1 = nextId db.
Proof.
  revert db. induction sessions as [|s rest IH]; intros db.
  - simpl. split; [|auto]. symmetry. apply filter_all.
    intros x _. unfold deleted_ids. simpl. apply not_elem_of_nil.
  - rewrite delete_each_cons.
    destruct (IH (delete_activeSession faulty (ActiveSession._id s) db).1)
      as (Hrows & Hviews & Hnext).
    destruct (delete_activeSession_rows faulty (ActiveSession._id s) db)
      as (Hrows1 & Hviews1 & Hnext1).
    rewrite Hrows, Hviews, Hnext, Hrows1, Hviews1, Hnext1.
    split; [|auto].
    unfold deleted_ids. rewrite fmap_cons.
    destruct (faulty (ActiveSession._id s)) eqn:Hf.
    + rewrite filter_cons_False by (rewrite Hf; discriminate). reflexivity.
    + rewrite (filter_cons_True (λ id, faulty id = false)) by exact Hf.
      rewrite list_filter_filter. apply list_filter_iff.
      intros x. rewrite not_elem_of_cons. tauto.
Qed.

Lemma elem_of_by_lastSeen_lt cutoff db (s : ActiveSession.t) :
  s ∈ by_lastSeen_lt cutoff db
  ↔ ActiveSession.lastSeen s < cutoff ∧ s ∈ activeSessions db.
Proof.
  unfold by_lastSeen_lt.
  rewrite merge_sort_Permutation, list_elem_of_filter. reflexivity.
Qed.

(** The table after one run, in an environment where the deletes of the
    ids in [faulty] fail. *)
Lemma cleanupStaleSessions_rows faulty now db :
  unique_ids db →
  activeSessions (cleanupStaleSessions faulty now db).1
  = filter (λ s, ¬ (ActiveSession.lastSeen s < now - SESSION_TIMEOUT_MS
                    ∧ faulty (ActiveSession._id s) = false))
           (activeSessions db)
  ∧ pageViews (cleanupStaleSessions faulty now db).1 = pageViews db
  ∧ nextId (cleanupStaleSessions faulty now db).1 = nextId db.
Proof.
  intros Hids. unfold cleanupStaleSessions.
  pose proof (delete_each_rows faulty
                (by_lastSeen_lt (now - SESSION_TIMEOUT_MS) db) db)
    as (Hrows & Hviews & Hnext).
  destruct (delete_each faulty (by_lastSeen_lt (now - SESSION_TIMEOUT_MS) db) db)
    as [db' ps]. simpl in *.
  split; [|auto]. rewrite Hrows. apply filter_ext_elem.
  intros r Hr. apply not_iff_compat. unfold deleted_ids.
  rewrite list_elem_of_filter, list_elem_of_fmap. split.
  - intros (Hf & s & Hid & Hs).
    apply elem_of_by_lastSeen_lt in Hs as [Hstale Hs].
    assert (r = s) as -> by (eapply unique_ids_inj; eassumption).
    auto.
  - intros [Hstale Hf]. split; [exact Hf|].
    exists r. split; [reflexivity|]. apply elem_of_by_lastSeen_lt. auto.
Qed.

(** With nothing below the cutoff no delete is issued. *)
Lemma cleanupStaleSessions_nothing_stale faulty now db :
  Forall (λ s, now - SESSION_TIMEOUT_MS ≤ ActiveSession.lastSeen s)
         (activeSessions db) →
  cleanupStaleSessions faulty now db = (db, Fulfilled).
Proof.
  intros Hfresh. unfold cleanupStaleSessions.
  assert (Hnone : by_lastSeen_lt (now - SESSION_TIMEOUT_MS) db = []).
  { destruct (by_lastSeen_lt (now - SESSION_TIMEOUT_MS) db) as [|s l] eqn:E;
      [reflexivity|exfalso].
    assert (Hs : s ∈ by_lastSeen_lt (now - SESSION_TIMEOUT_MS) db)
      by (rewrite E; left).
    apply elem_of_by_lastSeen_lt in Hs as [Hstale Hs].
    rewrite Forall_forall in Hfresh. specialize (Hfresh s Hs). simpl in Hfresh. lia. }
  rewrite Hnone. reflexivity.
Qed.

(** Where no delete fails and every id is that of a distinct stored
    document, every issued delete is fulfilled. *)
Lemma delete_each_fulfilled sessions db :
  NoDup (ActiveSession._id <$> sessions) →
  (∀ s, s ∈ sessions →
        ActiveSession._id s ∈ ActiveSession._id <$> activeSessions db) →
  Forall (λ p, p = Fulfilled) (delete_each reliable sessions db).2.
Proof.
  revert db. induction sessions as [|s rest IH]; intros db Hnd Hin.
  - constructor.
  - rewrite fmap_cons in Hnd. apply NoDup_cons in Hnd as [Hs Hnd].
    simpl. unfold delete_activeSession at 1. simpl.
    rewrite bool_decide_eq_true_2 by (apply Hin; left). simpl.
    match goal with |- context [delete_each reliable rest ?d] =>
      specialize (IH d Hnd); destruct (delete_each reliable rest d) as [db2 rs]
    end.
    simpl in *. constructor; [reflexivity|]. apply IH.
    intros s' Hs'.
    assert (Hs'' : s' ∈ s :: rest) by (by right).
    apply Hin, list_elem_of_fmap in Hs'' as (r & Hid & Hr).
    rewrite Hid. apply list_elem_of_fmap_2, list_elem_of_filter.
    split; [|exact Hr].
    intros Heq. apply Hs. rewrite <- Heq, <- Hid. by apply list_elem_of_fmap_2.
Qed.

Lemma Promise_all_fulfilled ps :
  Forall (λ p, p = Fulfilled) ps → Promise_all ps = Fulfilled.
Proof.
  intros Hall. unfold Promise_all.
  induction Hall as [|p ps -> _ IH]; [reflexivity|]. simpl. exact IH.
Qed.

Lemma cleanupStaleSessions_fulfilled now db :
  unique_ids db →
  (cleanupStaleSessions reliable now db).2 = Fulfilled.
Proof.
  intros Hids. unfold cleanupStaleSessions.
  pose proof (delete_each_fulfilled
                (by_lastSeen_lt (now - SESSION_TIMEOUT_MS) db) db) as Hall.
  destruct (delete_each reliable (by_lastSeen_lt (now - SESSION_TIMEOUT_MS) db) db)
    as [db' ps]. simpl in *.
  apply Promise_all_fulfilled, Hall.
  - unfold by_lastSeen_lt. rewrite merge_sort_Permutation.
    eapply sublist_NoDup; [exact Hids|].
    apply fmap_sublist, sublist_filter.
  - intros s Hs. apply elem_of_by_lastSeen_lt in Hs as [_ Hs].
    by apply list_elem_of_fmap_2.
Qed.




(** A run of a mutation commits the handler's store or leaves the old
    one. *)
Lemma mutation_cases (handler : Db → Db * Settled) db :
  (handler db).2 = Fulfilled ∧ mutation handler db = (handler db).1
  ∨ (handler db).2 = Rejected ∧ mutation handler db = db.
Proof.
  unfold mutation. destruct (handler db) as [db' [|]]; simpl; auto.
Qed.

End Reaper.

(** * Document ids

    Every store reached from the empty one through the backend entry points
    has distinct session document ids, the standing assumption of the
    reaper theorems. *)

Section DocumentIds.

Implicit Types (db : Db) (faulty : nat → bool) (now : Z).

Lemma ids_allocated_empty : ids_allocated emptyDb.
Proof. split; [apply NoDup_nil_2|constructor]. Qed.

Lemma recordPageView_ids now path pageType sessionId db :
  ids_allocated db → ids_allocated (recordPageView now path pageType sessionId db).
Proof.
  intros [Hnd Hlt]. unfold recordPageView.
  destruct (match last (by_session_path sessionId path db) with
            | Some v => bool_decide (PageView.timestamp v > now - DEDUP_WINDOW_MS)
            | None => false
            end); [by split|].
  split; [exact Hnd|]. simpl.
  eapply Forall_impl; [exact Hlt|]. simpl. intros s Hs. lia.
Qed.

Lemma patch_doc_id id currentPath now (l : list ActiveSession.t) :
  ActiveSession._id <$> (patch_doc id currentPath now <$> l)
  = ActiveSession._id <$> l.
Proof.
  rewrite <- list_fmap_compose. apply list_fmap_ext.
  intros i s _. simpl. unfold patch_doc. destruct (bool_decide _); reflexivity.
Qed.

Lemma heartbeat_ids now sessionId currentPath db :
  ids_allocated db → ids_allocated (heartbeat now sessionId currentPath db).
Proof.
  intros [Hnd Hlt].
  destruct (heartbeat_cases now sessionId currentPath db) as [ex _ _ _|ex _ _|_].
  - by split.
  - split.
    + unfold unique_ids. simpl. rewrite patch_doc_id. exact Hnd.
    + simpl. apply Forall_fmap. eapply Forall_impl; [exact Hlt|].
      intros s Hs. unfold compose, patch_doc.
      destruct (bool_decide _); exact Hs.
  - split.
    + unfold unique_ids. simpl. rewrite fmap_app. apply NoDup_app.
      split; [exact Hnd|]. split; [|apply NoDup_singleton].
      intros id Hid Hnew. apply list_elem_of_singleton in Hnew as ->.
      apply list_elem_of_fmap in Hid as (s & Hs & Hin).
      rewrite Forall_forall in Hlt. specialize (Hlt s Hin). simpl in Hlt, Hs. lia.
    + simpl. apply Forall_app. split.
      * eapply Forall_impl; [exact Hlt|]. simpl. intros s Hs. lia.
      * constructor; [simpl; lia|constructor].
Qed.

Lemma cleanupStaleSessions_ids faulty now db :
  ids_allocated db → ids_allocated (cleanupStaleSessions faulty now db).1.
Proof.
  intros [Hnd Hlt].
  destruct (cleanupStaleSessions_rows faulty now db Hnd) as (Hrows & _ & Hnext).
  split.
  - unfold unique_ids. rewrite Hrows.
    eapply sublist_NoDup; [exact Hnd|]. apply fmap_sublist, sublist_filter.
  - rewrite Hrows, Hnext. apply Forall_forall. intros s Hs.
    apply list_elem_of_filter in Hs as [_ Hs].
    rewrite Forall_forall in Hlt. by apply Hlt.
Qed.

Lemma reachable_ids (history : list Operation) :
  ids_allocated (foldl run_operation emptyDb history).
Proof.
  assert (Hgen : ∀ db, ids_allocated db →
                       ids_allocated (foldl run_operation db history)).
  { induction history as [|op history IH]; intros db Hdb; [exact Hdb|].
    simpl. apply IH. destruct op as [? ? ? ?|? ? ?|faulty now]; simpl.
    - by apply recordPageView_ids.
    - by apply heartbeat_ids.
    - destruct (mutation_cases (cleanupStaleSessions faulty now) db)
        as [[_ ->]|[_ ->]]; [by apply cleanupStaleSessions_ids|exact Hdb]. }
  apply Hgen, ids_allocated_empty.
Qed.

End DocumentIds.

(** C4. Reaper correctness: on any table (with distinct document ids), one
    run at [now] in which no delete fails leaves exactly the documents with
    [lastSeen >= now - SESSION_TIMEOUT_MS], unchanged and in their order,
    so it has deleted exactly those with [lastSeen] strictly below that
    cutoff, and it touches nothing else; a run on a store with no document
    below the cutoff changes nothing. *)
Theorem reaper_correctness now db :
  unique_ids db →
  cleanupStaleSessions reliable now db
    = (mkDb (pageViews db)
            (filter (λ s, now - SESSION_TIMEOUT_MS ≤ ActiveSession.lastSeen s)
                    (activeSessions db))
            (nextId db),
       Fulfilled)
  ∧ (∀ faulty now' db',
       Forall (λ s, now' - SESSION_TIMEOUT_MS ≤ ActiveSession.lastSeen s)
              (activeSessions db') →
       cleanupStaleSessions faulty now' db' = (db', Fulfilled)).
Proof.
  intros Hids. split; [|apply cleanupStaleSessions_nothing_stale].
  destruct (cleanupStaleSessions_rows reliable now db Hids)
    as (Hrows & Hviews & Hnext).
  pose proof (cleanupStaleSessions_fulfilled now db Hids) as Hok.
  destruct (cleanupStaleSessions reliable now db) as [[views rows next] p].
  simpl in *. subst views next p. f_equal. f_equal.
  rewrite Hrows. apply list_filter_iff. intros s. unfold reliable. split.
  - intros Hkeep. destruct (decide (now - SESSION_TIMEOUT_MS
                                    ≤ ActiveSession.lastSeen s)); [assumption|].
    exfalso. apply Hkeep. split; [lia|reflexivity].
  - intros Hfresh [Hstale _]. lia.
Qed.

Lemma reaper_correctness_witness :
  unique_ids
    (heartbeat_calls
       [mkHeartbeatCall 0 "S1" "/"; mkHeartbeatCall 79000 "S2" "/blog/a";
        mkHeartbeatCall 81000 "S3" "/docs"] emptyDb)
  ∧ activeSessions
      (cleanupStaleSessions reliable 200000
         (heartbeat_calls
            [mkHeartbeatCall 0 "S1" "/"; mkHeartbeatCall 79000 "S2" "/blog/a";
             mkHeartbeatCall 81000 "S3" "/docs"] emptyDb)).1
    = [ActiveSession.mk 2 "S3" "/docs" 81000].
Proof.
  assert (H : unique_ids
                (heartbeat_calls
                   [mkHeartbeatCall 0 "S1" "/"; mkHeartbeatCall 79000 "S2" "/blog/a";
                    mkHeartbeatCall 81000 "S3" "/docs"] emptyDb)).
  { apply (bool_decide_unpack _). vm_compute. exact I. }
  split; [exact H|].
  rewrite (proj1 (reaper_correctness 200000 _ H)). reflexivity.
Defined.



(** * Client guards *)

Section SessionIdentity.

Implicit Types (localStorage : gmap string string) (generated : string).

Lemma getSessionId_stored generated localStorage stored :
  localStorage !! SESSION_ID_KEY = Some stored → stored ≠ EmptyString →
  getSessionId generated localStorage = (stored, localStorage).
Proof.
  intros Hget Hne. unfold getSessionId. rewrite Hget. simpl.
  rewrite bool_decide_eq_false_2 by assumption. reflexivity.
Qed.

Lemma getSessionId_generates generated localStorage :
  falsy (localStorage !! SESSION_ID_KEY) = true →
  getSessionId generated localStorage
  = (generated, <[SESSION_ID_KEY := generated]> localStorage).
Proof.
  intros Hfalsy. unfold getSessionId.
  destruct (localStorage !! SESSION_ID_KEY) as [stored|]; [|reflexivity].
  rewrite Hfalsy. reflexivity.
Qed.

(** Whatever the storage held, after a call it holds the returned
    identifier under [SESSION_ID_KEY]. *)
Lemma getSessionId_persists generated localStorage :
  (getSessionId generated localStorage).2 !! SESSION_ID_KEY
  = Some (getSessionId generated localStorage).1.
Proof.
  unfold getSessionId.
  destruct (localStorage !! SESSION_ID_KEY) as [stored|] eqn:Hget; simpl.
  - destruct (bool_decide (stored = EmptyString)); simpl;
      [apply lookup_insert_eq|exact Hget].
  - apply lookup_insert_eq.
Qed.

End SessionIdentity.

(** C9. Session identity stability: with nothing stored, the first call
    returns the freshly generated identifier and stores it; and after any
    call, every later call returns exactly the identifier of that call and
    leaves the storage as it is, whatever [generateSessionId] would produce
    then.  Generated identifiers are UUIDs, hence non-empty. *)
Theorem session_identity_stable (g1 : string)
    (localStorage : gmap string string) :
  g1 ≠ EmptyString →
  (localStorage !! SESSION_ID_KEY = None →
   getSessionId g1 localStorage
   = (g1, <[SESSION_ID_KEY := g1]> localStorage))
  ∧ (∀ g2, getSessionId g2 (getSessionId g1 localStorage).2
           = getSessionId g1 localStorage)
  ∧ (∀ gs, foldl (λ st g, getSessionId g st.2) (getSessionId g1 localStorage) gs
           = getSessionId g1 localStorage).
Proof.
  intros Hg1.
  assert (Hnext : ∀ g2, getSessionId g2 (getSessionId g1 localStorage).2
                        = getSessionId g1 localStorage).
  { intros g2.
    rewrite (getSessionId_stored g2 _ (getSessionId g1 localStorage).1).
    - destruct (getSessionId g1 localStorage); reflexivity.
    - apply getSessionId_persists.
    - unfold getSessionId.
      destruct (localStorage !! SESSION_ID_KEY) as [stored|]; simpl;
        [|exact Hg1].
      destruct (decide (stored = EmptyString)) as [Hs|Hs].
      + rewrite bool_decide_eq_true_2 by exact Hs. exact Hg1.
      + rewrite bool_decide_eq_false_2 by exact Hs. exact Hs. }
  split; [|split; [exact Hnext|]].
  - intros Hnone. apply getSessionId_generates. rewrite Hnone. reflexivity.
  - intros gs. induction gs as [|g gs IH]; [reflexivity|].
    simpl. rewrite Hnext. exact IH.
Qed.

Lemma session_identity_stable_witness :
  "3f2b9c1e-uuid" ≠ EmptyString
  ∧ getSessionId "7a1d0000-uuid" (getSessionId "3f2b9c1e-uuid" ∅).2
    = ("3f2b9c1e-uuid", {[SESSION_ID_KEY := "3f2b9c1e-uuid"]}).
Proof.
  assert (H : "3f2b9c1e-uuid" ≠ EmptyString) by discriminate.
  split; [exact H|].
  rewrite (proj1 (proj2 (session_identity_stable "3f2b9c1e-uuid" ∅ H))
             "7a1d0000-uuid").
  reflexivity.
Defined.

(** C7 as stated fails: the first guard of [sendHeartbeat] returns when no
    session id is set.  With the refs as initialised and a null session id,
    nothing is pending and nothing was sent before, yet no call is issued
    and the refs stay as they were. *)
Lemma sendHeartbeat_guard_counterexample :
  isHeartbeatPending (initialRefs None) = false
  ∧ ¬ (lastHeartbeatPath (initialRefs None) = Some "/"
       ∧ 100000 - lastHeartbeatTime (initialRefs None) < HEARTBEAT_DEBOUNCE_MS)
  ∧ sendHeartbeat 100000 "/" (initialRefs None) = (initialRefs None, None).
Proof.
  split; [reflexivity|]. split; [|reflexivity].
  intros [Hpath _]. discriminate Hpath.
Qed.

(** C7, amended. Client heartbeat guard: [sendHeartbeat] issues the
    mutation call for [path] at [now] if and only if a session id is set,
    no call is pending, and it is not the case that [path] is the last-sent
    path with the last send less than [HEARTBEAT_DEBOUNCE_MS] ago.  When it
    issues the call, for this session id and path, it has set the pending
    flag and recorded [now] and [path]; when it does not, the refs are
    untouched.  When the call settles, fulfilled or rejected, the pending
    flag is cleared, the other refs are kept, and [sendHeartbeat] itself
    is fulfilled. *)
Theorem sendHeartbeat_guard now path r :
  (is_Some (sendHeartbeat now path r).2
   ↔ falsy (sessionIdRef r) = false
     ∧ isHeartbeatPending r = false
     ∧ ¬ (lastHeartbeatPath r = Some path
          ∧ now - lastHeartbeatTime r < HEARTBEAT_DEBOUNCE_MS))
  ∧ (∀ call, (sendHeartbeat now path r).2 = Some call →
       sessionIdRef r = Some (arg_sessionId call)
       ∧ arg_currentPath call = path
       ∧ (sendHeartbeat now path r).1
         = mkRefs (sessionIdRef r) true now (Some path))
  ∧ ((sendHeartbeat now path r).2 = None → (sendHeartbeat now path r).1 = r)
  ∧ (∀ outcome r1,
       sendHeartbeat_settled outcome r1
       = (mkRefs (sessionIdRef r1) false (lastHeartbeatTime r1)
            (lastHeartbeatPath r1), Fulfilled)).
Proof.
  split; [|split; [|split]].
  - unfold sendHeartbeat.
    destruct (sessionIdRef r) as [id|]; simpl;
      [|split; [intros [? ?]; discriminate|intros [? _]; discriminate]].
    destruct (bool_decide (id = EmptyString)); simpl.
    { split; [intros [? ?]; discriminate|intros [? _]; discriminate]. }
    destruct (isHeartbeatPending r); simpl.
    { split; [intros [? ?]; discriminate|intros (_ & ? & _); discriminate]. }
    destruct (decide (lastHeartbeatPath r = Some path)) as [Hp|Hp];
      [destruct (decide (now - lastHeartbeatTime r < HEARTBEAT_DEBOUNCE_MS))
         as [Ht|Ht]|].
    + rewrite !bool_decide_eq_true_2 by assumption. simpl.
      split; [intros [? ?]; discriminate|intros (_ & _ & Hn); tauto].
    + rewrite (bool_decide_eq_false_2 (_ < _)) by assumption.
      rewrite andb_false_r. simpl.
      split; [intros _; repeat split; tauto|intros _; eexists; reflexivity].
    + rewrite (bool_decide_eq_false_2 (_ = _)) by assumption. simpl.
      split; [intros _; repeat split; tauto|intros _; eexists; reflexivity].
  - intros call. unfold sendHeartbeat.
    destruct (sessionIdRef r) as [id|]; simpl; [|discriminate].
    destruct (bool_decide (id = EmptyString)); [discriminate|].
    destruct (isHeartbeatPending r); [discriminate|].
    destruct (_ && _); [discriminate|]. simpl.
    intros [= <-]. simpl. auto.
  - unfold sendHeartbeat.
    destruct (sessionIdRef r) as [id|]; simpl; [|reflexivity].
    destruct (bool_decide (id = EmptyString)); [reflexivity|].
    destruct (isHeartbeatPending r); [reflexivity|].
    destruct (_ && _); [reflexivity|]. discriminate.
  - intros [] r1; reflexivity.
Qed.

(** * Scenarios *)

(** Session [S1] heartbeats [/blog/a] at 0 and again at 5 s: the second
    call is a no-op; at 31 s it heartbeats [/blog/b]: the document is
    patched in place. *)
Example scenario_heartbeat :
  heartbeat 5000 "S1" "/blog/a" (heartbeat 0 "S1" "/blog/a" emptyDb)
  = heartbeat 0 "S1" "/blog/a" emptyDb
  ∧ activeSessions
      (heartbeat_calls
         [mkHeartbeatCall 0 "S1" "/blog/a"; mkHeartbeatCall 5000 "S1" "/blog/a";
          mkHeartbeatCall 31000 "S1" "/blog/b"] emptyDb)
    = [ActiveSession.mk 0 "S1" "/blog/b" 31000].
Proof. split; reflexivity. Qed.

(** Session [S1] views [/docs] at 0 and at 10 min: one stored event; at
    31 min: a second one. *)
Example scenario_views :
  pageViews
    (recordPageView_calls "/docs" "S1" [(0, "page"); (600000, "page")] emptyDb)
  = [PageView.mk 0 "/docs" "page" "S1" 0]
  ∧ pageViews
      (recordPageView_calls "/docs" "S1"
         [(0, "page"); (600000, "page"); (1860000, "page")] emptyDb)
    = [PageView.mk 0 "/docs" "page" "S1" 0;
       PageView.mk 1 "/docs" "page" "S1" 1860000].
Proof. split; reflexivity. Qed.

(** A session last seen 121 s ago is deleted by the next run, one last
    seen 119 s ago survives, and so does one last seen exactly 120 s ago. *)
Example scenario_reaper :
  cleanupStaleSessions reliable 200000
    (mkDb [] [ActiveSession.mk 0 "S1" "/" 79000;
              ActiveSession.mk 1 "S2" "/" 81000;
              ActiveSession.mk 2 "S3" "/" 80000] 3%nat)
  = (mkDb [] [ActiveSession.mk 1 "S2" "/" 81000;
              ActiveSession.mk 2 "S3" "/" 80000] 3%nat,
     Fulfilled).
Proof. reflexivity. Qed.

(** Two ticks of one tab: the first issues the call, a tick while it is
    pending is skipped, and after it settled a tick for the same path
    within the debounce window is skipped as well. *)
Example scenario_scheduler :
  sendHeartbeat 1000000 "/docs" (initialRefs (Some "3f2b9c1e-uuid"))
  = (mkRefs (Some "3f2b9c1e-uuid") true 1000000 (Some "/docs"),
     Some (mkHeartbeatArgs "3f2b9c1e-uuid" "/docs"))
  ∧ sendHeartbeat 1030000 "/docs"
      (mkRefs (Some "3f2b9c1e-uuid") true 1000000 (Some "/docs"))
    = (mkRefs (Some "3f2b9c1e-uuid") true 1000000 (Some "/docs"), None)
  ∧ sendHeartbeat 1004999 "/docs"
      (sendHeartbeat_settled Rejected
         (mkRefs (Some "3f2b9c1e-uuid") true 1000000 (Some "/docs"))).1
    = (mkRefs (Some "3f2b9c1e-uuid") false 1000000 (Some "/docs"), None).
Proof. repeat split; reflexivity. Qed.

(** * Further properties of the session store *)

Section SessionStore.

Implicit Types (db : Db) (sessionId currentPath : string) (now : Z).

Lemma heartbeat_pageViews now sessionId currentPath db :
  pageViews (heartbeat now sessionId currentPath db) = pageViews db.
Proof.
  destruct (heartbeat_cases now sessionId currentPath db); reflexivity.
Qed.

(** A patch of the document of one session does not reach the documents
    of another, as long as ids are distinct. *)
Lemma by_sessionId_patch_other sessionId other currentPath now db ex :
  unique_ids db →
  head (by_sessionId sessionId db) = Some ex →
  other ≠ sessionId →
  by_sessionId other (patch_activeSession (ActiveSession._id ex) currentPath now db)
  = by_sessionId other db.
Proof.
  intros Hids Hex Hne. rewrite by_sessionId_patch.
  destruct (head_by_sessionId _ _ _ Hex) as [Hsid Hin].
  rewrite <- (list_fmap_id (by_sessionId other db)) at 2.
  apply list_fmap_ext. intros i x Hx.
  apply list_elem_of_lookup_2, list_elem_of_filter in Hx as [Hx Hxin].
  unfold patch_doc. rewrite bool_decide_eq_false_2; [reflexivity|].
  intros Hid. apply Hne.
  rewrite (unique_ids_inj db x ex Hids Hxin Hin Hid) in Hx. congruence.
Qed.

Lemma heartbeat_present_step now sessionId currentPath db other :
  by_sessionId other (heartbeat now sessionId currentPath db) ≠ []
  ↔ by_sessionId other db ≠ [] ∨ other = sessionId.
Proof.
  destruct (heartbeat_cases now sessionId currentPath db)
    as [ex Hex _ _|ex Hex _|Hnone].
  - split; [auto|]. intros [H| ->]; [exact H|].
    intros Hnil. rewrite Hnil in Hex. discriminate.
  - rewrite by_sessionId_patch. split.
    + intros H. left. intros Hnil. apply H. rewrite Hnil. reflexivity.
    + intros [H| ->].
      * destruct (by_sessionId other db); [by destruct H|discriminate].
      * destruct (by_sessionId sessionId db); discriminate.
  - destruct (decide (other = sessionId)) as [->|Hne].
    + rewrite by_sessionId_insert_same, Hnone. simpl. split; [auto|discriminate].
    + rewrite by_sessionId_insert_other by assumption. split; [auto|].
      intros [H|H]; [exact H|contradiction].
Qed.

(** What the index finds for the calling session after a call. *)
Lemma heartbeat_found_fresh now sessionId currentPath db :
  ∃ r,
    head (by_sessionId sessionId (heartbeat now sessionId currentPath db)) = Some r
    ∧ ActiveSession.sessionId r = sessionId
    ∧ ActiveSession.currentPath r = currentPath
    ∧ now - ActiveSession.lastSeen r < HEARTBEAT_DEDUP_MS.
Proof.
  destruct (heartbeat_cases now sessionId currentPath db)
    as [ex Hex Hp Ht|ex Hex _|Hnone].
  - exists ex. destruct (head_by_sessionId _ _ _ Hex) as [Hsid _]. auto.
  - destruct (head_by_sessionId _ _ _ Hex) as [Hsid _].
    rewrite by_sessionId_patch.
    destruct (by_sessionId sessionId db) as [|s l]; [discriminate|].
    simpl in Hex. injection Hex as ->.
    rewrite fmap_cons, patch_doc_self. simpl.
    eexists; split; [reflexivity|]. simpl.
    repeat split; [assumption|]. unfold HEARTBEAT_DEDUP_MS. lia.
  - rewrite by_sessionId_insert_same, Hnone. simpl.
    eexists; split; [reflexivity|]. simpl.
    repeat split. unfold HEARTBEAT_DEDUP_MS. lia.
Qed.

End SessionStore.

(** X1. After any [heartbeat(sessionId, currentPath)] at [now], on any
    store, the index lookup for the session finds a document of that
    session whose [currentPath] is the reported path and whose [lastSeen]
    is less than [HEARTBEAT_DEDUP_MS] behind [now]. *)
Theorem heartbeat_postcondition now sessionId currentPath db :
  ∃ r,
    head (by_sessionId sessionId (heartbeat now sessionId currentPath db)) = Some r
    ∧ ActiveSession.sessionId r = sessionId
    ∧ ActiveSession.currentPath r = currentPath
    ∧ now - ActiveSession.lastSeen r < HEARTBEAT_DEDUP_MS.
Proof.
  destruct (heartbeat_found_fresh now sessionId currentPath db)
    as (r & Hhead & Hsid & Hpath & Hfresh).
  exists r. split_and!; assumption.
Qed.

(** X2. A heartbeat of one session leaves every other session's documents
    and every stored view event exactly as they were (document ids being
    distinct). *)
Theorem heartbeat_isolation now sessionId currentPath other db :
  unique_ids db →
  other ≠ sessionId →
  by_sessionId other (heartbeat now sessionId currentPath db)
    = by_sessionId other db
  ∧ pageViews (heartbeat now sessionId currentPath db) = pageViews db.
Proof.
  intros Hids Hne. split; [|apply heartbeat_pageViews].
  destruct (heartbeat_cases now sessionId currentPath db)
    as [ex _ _ _|ex Hex _|_].
  - reflexivity.
  - apply (by_sessionId_patch_other sessionId); assumption.
  - by apply by_sessionId_insert_other.
Qed.

Lemma heartbeat_isolation_witness :
  unique_ids (heartbeat 0 "S2" "/docs" (heartbeat 0 "S1" "/" emptyDb))
  ∧ "S2" ≠ "S1"
  ∧ by_sessionId "S2"
      (heartbeat 60000 "S1" "/blog/a"
         (heartbeat 0 "S2" "/docs" (heartbeat 0 "S1" "/" emptyDb)))
    = [ActiveSession.mk 1 "S2" "/docs" 0].
Proof.
  assert (H1 : unique_ids (heartbeat 0 "S2" "/docs" (heartbeat 0 "S1" "/" emptyDb))).
  { apply (bool_decide_unpack _). vm_compute. exact I. }
  assert (H2 : "S2" ≠ "S1") by discriminate.
  split; [exact H1|]. split; [exact H2|].
  rewrite (proj1 (heartbeat_isolation 60000 "S1" "/blog/a" "S2" _ H1 H2)).
  reflexivity.
Defined.

(** X3. After a run of heartbeats a session has a document exactly when it
    had one before the run or sent one of the heartbeats: no heartbeat
    drops a session, and none creates a document for a session other than
    its own. *)
Theorem heartbeat_calls_present (calls : list HeartbeatCall) db sessionId :
  by_sessionId sessionId (heartbeat_calls calls db) ≠ []
  ↔ by_sessionId sessionId db ≠ [] ∨ sessionId ∈ call_sessionId <$> calls.
Proof.
  revert db. induction calls as [|c calls IH]; intros db.
  - simpl. split; [auto|]. intros [H|H]; [exact H|]. inversion H.
  - change (heartbeat_calls (c :: calls) db)
      with (heartbeat_calls calls
              (heartbeat (call_now c) (call_sessionId c) (call_currentPath c) db)).
    rewrite IH, heartbeat_present_step, fmap_cons, elem_of_cons. tauto.
Qed.

(** * Further properties of the view log *)

Section ViewLog.

Implicit Types (db : Db) (path pageType sessionId : string) (now : Z).

Lemma cleanupStaleSessions_pageViews (faulty : nat → bool) now db :
  pageViews (cleanupStaleSessions faulty now db).1 = pageViews db.
Proof.
  unfold cleanupStaleSessions.
  pose proof (delete_each_rows faulty
                (by_lastSeen_lt (now - SESSION_TIMEOUT_MS) db) db)
    as (_ & Hviews & _).
  destruct (delete_each faulty (by_lastSeen_lt (now - SESSION_TIMEOUT_MS) db) db).
  exact Hviews.
Qed.

Lemma mutation_pageViews (faulty : nat → bool) now db :
  pageViews (mutation (cleanupStaleSessions faulty now) db) = pageViews db.
Proof.
  destruct (mutation_cases (cleanupStaleSessions faulty now) db)
    as [[_ ->]|[_ ->]]; [apply cleanupStaleSessions_pageViews|reflexivity].
Qed.

(** What one call does to the log: nothing, or one event appended. *)
Lemma recordPageView_pageViews now path pageType sessionId db :
  pageViews (recordPageView now path pageType sessionId db) = pageViews db
  ∨ pageViews (recordPageView now path pageType sessionId db)
    = pageViews db ++ [PageView.mk (nextId db) path pageType sessionId now].
Proof.
  unfold recordPageView.
  destruct (match last (by_session_path sessionId path db) with
            | Some v => bool_decide (PageView.timestamp v > now - DEDUP_WINDOW_MS)
            | None => false
            end); [left|right]; reflexivity.
Qed.

Lemma run_operation_pageViews db (op : Operation) :
  pageViews db `prefix_of` pageViews (run_operation db op).
Proof.
  destruct op as [now path pageType sessionId|now sessionId currentPath|faulty now];
    simpl.
  - destruct (recordPageView_pageViews now path pageType sessionId db) as [->| ->];
      [reflexivity|apply prefix_app_r; reflexivity].
  - rewrite heartbeat_pageViews. reflexivity.
  - rewrite mutation_pageViews. reflexivity.
Qed.

(** An insert happens only when every stored event of the pair is at least
    a window older than [now]. *)
Lemma recordPageView_spaced now path pageType sessionId db :
  window_spaced db →
  window_spaced (recordPageView now path pageType sessionId db).
Proof.
  intros Hspaced s p. unfold recordPageView.
  destruct (last (by_session_path sessionId path db)) as [v|] eqn:Hlast.
  - destruct (decide (PageView.timestamp v > now - DEDUP_WINDOW_MS)) as [Hdup|Hold].
    + rewrite bool_decide_eq_true_2 by exact Hdup. apply Hspaced.
    + rewrite bool_decide_eq_false_2 by exact Hold.
      unfold by_session_path, insert_pageView; simpl. rewrite filter_app.
      destruct (decide (sessionId = s ∧ path = p)) as [[-> ->]|Hother].
      * rewrite filter_cons_True by (simpl; tauto). rewrite filter_nil.
        apply StronglySorted_app_2; [|apply Hspaced|repeat constructor].
        intros a b Ha Hb. apply list_elem_of_singleton in Hb as ->.
        unfold window_apart. simpl.
        apply last_Some in Hlast as [earlier Hearlier].
        specialize (Hspaced s p). unfold by_session_path in Hearlier, Hspaced.
        rewrite Hearlier in Ha, Hspaced.
        apply elem_of_app in Ha as [Ha|Ha].
        -- pose proof (StronglySorted_app_1_elem_of _ _ _ a v Hspaced Ha) as Hav.
           unfold window_apart in Hav.
           specialize (Hav ltac:(left)). unfold DEDUP_WINDOW_MS in *. lia.
        -- apply list_elem_of_singleton in Ha as ->. lia.
      * rewrite filter_cons_False by (simpl; tauto).
        rewrite filter_nil, app_nil_r. apply Hspaced.
  - unfold by_session_path, insert_pageView; simpl. rewrite filter_app.
    destruct (decide (sessionId = s ∧ path = p)) as [[-> ->]|Hother].
    + apply last_None in Hlast. unfold by_session_path in Hlast. rewrite Hlast.
      rewrite filter_cons_True by (simpl; tauto). repeat constructor.
    + rewrite filter_cons_False by (simpl; tauto).
      rewrite filter_nil, app_nil_r. apply Hspaced.
Qed.

Lemma run_operation_spaced db (op : Operation) :
  window_spaced db → window_spaced (run_operation db op).
Proof.
  intros Hspaced.
  destruct op as [now path pageType sessionId|now sessionId currentPath|faulty now];
    simpl.
  - by apply recordPageView_spaced.
  - intros s p. unfold by_session_path. rewrite heartbeat_pageViews. apply Hspaced.
  - intros s p. unfold by_session_path. rewrite mutation_pageViews.
    apply Hspaced.
Qed.

End ViewLog.

(** X4. The view log is append-only: over any history of backend calls
    (page views, heartbeats, cleanups with any failures) the events stored
    at the start remain, unchanged and in their order, as the first events
    of the log. *)
Theorem pageViews_append_only (history : list Operation) db :
  pageViews db `prefix_of` pageViews (foldl run_operation db history).
Proof.
  revert db. induction history as [|op history IH]; intros db; [reflexivity|].
  simpl. etransitivity; [apply run_operation_pageViews|apply IH].
Qed.

(** X5. Window spacing is an invariant of the store: if the stored events of
    every [(sessionId, path)] pair are pairwise at least [DEDUP_WINDOW_MS]
    apart, in creation order, they still are after any history of backend
    calls, whatever the instants of the calls. *)
Theorem pageViews_window_spaced (history : list Operation) db :
  window_spaced db →
  window_spaced (foldl run_operation db history).
Proof.
  revert db. induction history as [|op history IH]; intros db Hspaced;
    [exact Hspaced|].
  simpl. apply IH. by apply run_operation_spaced.
Qed.

Lemma pageViews_window_spaced_witness :
  window_spaced emptyDb
  ∧ window_spaced
      (foldl run_operation emptyDb
         [OpRecordPageView 0 "/docs" "page" "S1";
          OpRecordPageView 600000 "/docs" "page" "S1";
          OpHeartbeat 600000 "S1" "/docs";
          OpRecordPageView 1860000 "/docs" "page" "S1"]).
Proof.
  assert (H : window_spaced emptyDb) by (intros s p; constructor).
  split; [exact H|].
  exact (pageViews_window_spaced
           [OpRecordPageView 0 "/docs" "page" "S1";
            OpRecordPageView 600000 "/docs" "page" "S1";
            OpHeartbeat 600000 "S1" "/docs";
            OpRecordPageView 1860000 "/docs" "page" "S1"] emptyDb H).
Defined.

(** * Heartbeats against the reaper *)

Section KeepAlive.

Implicit Types (db : Db) (sessionId currentPath : string) (now t : Z).

Lemma recordPageView_activeSessions now path pageType sessionId db :
  activeSessions (recordPageView now path pageType sessionId db)
  = activeSessions db.
Proof.
  unfold recordPageView.
  destruct (match last (by_session_path sessionId path db) with
            | Some v => bool_decide (PageView.timestamp v > now - DEDUP_WINDOW_MS)
            | None => false
            end); reflexivity.
Qed.

Lemma head_filter_keep {A} (P : A → Prop) `{!∀ x, Decision (P x)}
    (l : list A) (x : A) :
  head l = Some x → P x → head (filter P l) = Some x.
Proof.
  destruct l as [|y l]; [discriminate|]. simpl. intros [= ->] HP.
  rewrite filter_cons_True by exact HP. reflexivity.
Qed.

(** A document that is not below the cutoff is still the one the index
    finds for its session after a cleanup, whichever deletes fail. *)
Lemma cleanupStaleSessions_keeps (faulty : nat → bool) now db sessionId r :
  unique_ids db →
  head (by_sessionId sessionId db) = Some r →
  now - SESSION_TIMEOUT_MS ≤ ActiveSession.lastSeen r →
  head (by_sessionId sessionId (cleanupStaleSessions faulty now db).1) = Some r.
Proof.
  intros Hids Hhead Hfresh.
  destruct (cleanupStaleSessions_rows faulty now db Hids) as (Hrows & _ & _).
  unfold by_sessionId in *. rewrite Hrows.
  rewrite list_filter_filter.
  rewrite (list_filter_iff _
             (λ s, ¬ (ActiveSession.lastSeen s < now - SESSION_TIMEOUT_MS
                      ∧ faulty (ActiveSession._id s) = false)
                   ∧ ActiveSession.sessionId s = sessionId))
    by (intros x; tauto).
  rewrite <- list_filter_filter.
  apply head_filter_keep; [exact Hhead|]. intros [Hstale _]. lia.
Qed.

Lemma run_operation_fresh sessionId t db (op : Operation) :
  ids_allocated db →
  fresh_at sessionId t db →
  heartbeats_in_time sessionId t [op] →
  ∃ t', fresh_at sessionId t' (run_operation db op)
        ∧ ∀ rest, heartbeats_in_time sessionId t (op :: rest)
                  → heartbeats_in_time sessionId t' rest.
Proof.
  intros [Hids _] (r & Hhead & Hfresh) Htime.
  destruct op as [now path pageType s|now s currentPath|faulty now]; simpl in *.
  - exists t. split; [|auto]. exists r.
    unfold by_sessionId. rewrite recordPageView_activeSessions. auto.
  - destruct (decide (s = sessionId)) as [->|Hne].
    + exists now. rewrite bool_decide_eq_true_2 by reflexivity. split; [|auto].
      destruct (heartbeat_found_fresh now sessionId currentPath db)
        as (r' & Hhead' & _ & _ & Hfresh').
      exists r'. auto.
    + exists t. rewrite bool_decide_eq_false_2 by exact Hne. split; [|auto].
      exists r. split; [|exact Hfresh].
      destruct (heartbeat_cases now s currentPath db) as [ex _ _ _|ex Hex _|_].
      * exact Hhead.
      * rewrite (by_sessionId_patch_other s) by (assumption || congruence).
        exact Hhead.
      * rewrite by_sessionId_insert_other by congruence. exact Hhead.
  - destruct Htime as [Hin _]. exists t. split; [|tauto].
    exists r. split; [|exact Hfresh].
    destruct (mutation_cases (cleanupStaleSessions faulty now) db)
      as [[_ ->]|[_ ->]]; [|exact Hhead].
    apply cleanupStaleSessions_keeps; [exact Hids|exact Hhead|].
    unfold SESSION_TIMEOUT_MS, HEARTBEAT_DEDUP_MS in *. lia.
Qed.

Lemma run_operation_ids db (op : Operation) :
  ids_allocated db → ids_allocated (run_operation db op).
Proof.
  intros Hdb. destruct op as [? ? ? ?|? ? ?|faulty now]; simpl.
  - by apply recordPageView_ids.
  - by apply heartbeat_ids.
  - destruct (mutation_cases (cleanupStaleSessions faulty now) db)
      as [[_ ->]|[_ ->]]; [by apply cleanupStaleSessions_ids|exact Hdb].
Qed.

Lemma history_fresh sessionId (history : list Operation) t db :
  ids_allocated db →
  fresh_at sessionId t db →
  heartbeats_in_time sessionId t history →
  ∃ t', fresh_at sessionId t' (foldl run_operation db history).
Proof.
  revert t db. induction history as [|op history IH]; intros t db Hids Hfresh Htime.
  - exists t. exact Hfresh.
  - assert (Hone : heartbeats_in_time sessionId t [op]).
    { destruct op; simpl in *; tauto. }
    destruct (run_operation_fresh sessionId t db op Hids Hfresh Hone)
      as (t' & Hfresh' & Hrest).
    simpl. apply (IH t'); [by apply run_operation_ids|exact Hfresh'|].
    by apply Hrest.
Qed.

(** For a store with distinct ids and no failing delete, the result of a
    run in closed form. *)
Lemma cleanupStaleSessions_reliable now db :
  unique_ids db →
  cleanupStaleSessions reliable now db
  = (mkDb (pageViews db)
          (filter (λ s, now - SESSION_TIMEOUT_MS ≤ ActiveSession.lastSeen s)
                  (activeSessions db))
          (nextId db),
     Fulfilled).
Proof.
  intros Hids.
  destruct (cleanupStaleSessions_rows reliable now db Hids)
    as (Hrows & Hviews & Hnext).
  pose proof (cleanupStaleSessions_fulfilled now db Hids) as Hok.
  destruct (cleanupStaleSessions reliable now db) as [[views rows next] p].
  simpl in *. subst views next p. f_equal. f_equal.
  rewrite Hrows. apply list_filter_iff. intros s. unfold reliable. split.
  - intros Hkeep.
    destruct (decide (now - SESSION_TIMEOUT_MS ≤ ActiveSession.lastSeen s));
      [assumption|].
    exfalso. apply Hkeep. split; [lia|reflexivity].
  - intros Hfresh [Hstale _]. lia.
Qed.

End KeepAlive.

(** X6. Keep-alive: once a heartbeat of a session has reached the store,
    the session keeps a document through any history of backend calls in
    which every cleanup runs at most
    [SESSION_TIMEOUT_MS - HEARTBEAT_DEDUP_MS] (110 s) after the session's
    latest heartbeat, whatever the other sessions do and whichever deletes
    fail.  (The margin is the heartbeat window: a short-circuited heartbeat
    does not refresh [lastSeen].) *)
Theorem session_kept_alive (history : list Operation) db sessionId currentPath t0 :
  ids_allocated db →
  heartbeats_in_time sessionId t0 history →
  ∃ r, head (by_sessionId sessionId
               (foldl run_operation (heartbeat t0 sessionId currentPath db) history))
       = Some r
       ∧ ActiveSession.sessionId r = sessionId.
Proof.
  intros Hids Htime.
  assert (Hfresh : fresh_at sessionId t0 (heartbeat t0 sessionId currentPath db)).
  { destruct (heartbeat_found_fresh t0 sessionId currentPath db)
      as (r & Hhead & _ & _ & Hfr). exists r. auto. }
  destruct (history_fresh sessionId history t0 _
              (heartbeat_ids t0 sessionId currentPath db Hids) Hfresh Htime)
    as (t' & r & Hhead & _).
  exists r. split; [exact Hhead|].
  by destruct (head_by_sessionId _ _ _ Hhead).
Qed.

Lemma session_kept_alive_witness :
  ids_allocated emptyDb
  ∧ heartbeats_in_time "S1" 0
      [OpCleanup reliable 110000; OpHeartbeat 115000 "S1" "/";
       OpHeartbeat 120000 "S1" "/"; OpCleanup reliable 225000]
  ∧ ∃ r, head (by_sessionId "S1"
                 (foldl run_operation (heartbeat 0 "S1" "/" emptyDb)
                    [OpCleanup reliable 110000; OpHeartbeat 115000 "S1" "/";
                     OpHeartbeat 120000 "S1" "/"; OpCleanup reliable 225000]))
         = Some r
         ∧ ActiveSession.sessionId r = "S1".
Proof.
  assert (H1 : ids_allocated emptyDb) by (split; [apply NoDup_nil_2|constructor]).
  assert (H2 : heartbeats_in_time "S1" 0
                 [OpCleanup reliable 110000; OpHeartbeat 115000 "S1" "/";
                  OpHeartbeat 120000 "S1" "/"; OpCleanup reliable 225000]).
  { simpl. unfold SESSION_TIMEOUT_MS, HEARTBEAT_DEDUP_MS. lia. }
  split; [exact H1|]. split; [exact H2|].
  exact (session_kept_alive _ emptyDb "S1" "/" 0 H1 H2).
Defined.

(** X7. Cleanup runs compose: with distinct ids and no failing delete, a
    run at [now1] followed by a run at [now2] leaves the store that one run
    at the later of the two instants leaves; in particular a second run at
    the same instant changes nothing. *)
Theorem cleanupStaleSessions_twice now1 now2 db :
  unique_ids db →
  cleanupStaleSessions reliable now2 (cleanupStaleSessions reliable now1 db).1
  = cleanupStaleSessions reliable (now1 `max` now2) db.
Proof.
  intros Hids.
  rewrite (cleanupStaleSessions_reliable now1 db Hids). simpl.
  rewrite (cleanupStaleSessions_reliable (now1 `max` now2) db Hids).
  rewrite cleanupStaleSessions_reliable.
  - simpl. rewrite list_filter_filter. f_equal. f_equal.
    apply list_filter_iff. intros s. lia.
  - unfold unique_ids. simpl.
    eapply sublist_NoDup; [exact Hids|]. apply fmap_sublist, sublist_filter.
Qed.

Lemma cleanupStaleSessions_twice_witness :
  unique_ids
    (heartbeat_calls
       [mkHeartbeatCall 0 "S1" "/"; mkHeartbeatCall 79000 "S2" "/blog/a";
        mkHeartbeatCall 81000 "S3" "/docs"] emptyDb)
  ∧ cleanupStaleSessions reliable 200500
      (cleanupStaleSessions reliable 150000
         (heartbeat_calls
            [mkHeartbeatCall 0 "S1" "/"; mkHeartbeatCall 79000 "S2" "/blog/a";
             mkHeartbeatCall 81000 "S3" "/docs"] emptyDb)).1
    = (mkDb [] [ActiveSession.mk 2 "S3" "/docs" 81000] 3%nat, Fulfilled).
Proof.
  assert (H : unique_ids
                (heartbeat_calls
                   [mkHeartbeatCall 0 "S1" "/"; mkHeartbeatCall 79000 "S2" "/blog/a";
                    mkHeartbeatCall 81000 "S3" "/docs"] emptyDb)).
  { apply (bool_decide_unpack _). vm_compute. exact I. }
  split; [exact H|].
  rewrite (cleanupStaleSessions_twice 150000 200500 _ H). reflexivity.
Defined.

(** The 110 s of the keep-alive margin cannot be raised to the full
    timeout: the heartbeat at 9999 is short-circuited, and the cleanup
    110.002 s after it removes the session. *)
Example scenario_skipped_heartbeat_reaped :
  by_sessionId "S1"
    (foldl run_operation (heartbeat 0 "S1" "/" emptyDb)
       [OpHeartbeat 9999 "S1" "/"; OpCleanup reliable 120001])
  = [].
Proof. reflexivity. Qed.

(** * Client: what a tab sends *)

Section PageViewRecorder.

Variable getPageType : string → string.
Variable sessionId : string.

Implicit Types (paths : list string) (ref : option string).

Lemma pageViewEffect_run_cons path paths ref :
  pageViewEffect_run getPageType sessionId (path :: paths) ref
  = let step := pageViewEffect getPageType sessionId path ref in
    let rest := pageViewEffect_run getPageType sessionId paths step.1 in
    (rest.1, match step.2 with Some c => c :: rest.2 | None => rest.2 end).
Proof.
  simpl. destruct (pageViewEffect getPageType sessionId path ref) as [ref1 call].
  simpl. destruct (pageViewEffect_run getPageType sessionId paths ref1). reflexivity.
Qed.

Lemma pageViewEffect_changed path ref :
  ref ≠ Some path →
  pageViewEffect getPageType sessionId path ref
  = (Some path, Some (mkPageViewArgs path (getPageType path) sessionId)).
Proof. intros H. unfold pageViewEffect. by rewrite bool_decide_eq_true_2. Qed.

Lemma pageViewEffect_same path :
  pageViewEffect getPageType sessionId path (Some path) = (Some path, None).
Proof.
  unfold pageViewEffect. rewrite bool_decide_eq_false_2; [reflexivity|].
  intros H. by apply H.
Qed.

End PageViewRecorder.

(** X8. Page view recorder: run over the paths a tab visits, the effect
    issues its calls in visiting order, never two in a row for the same
    path, and the first one not for the path already recorded; every visited
    path is issued at least once unless it was the recorded one from the
    start; each call carries [getPageType(path)] and the session id; and the
    marker ends at the last visited path. *)
Theorem pageViewEffect_run_spec (getPageType : string → string)
    (sessionId : string) (paths : list string) (lastRecordedPath : option string) :
  Sorted path_changed
    (pageViewEffect_run getPageType sessionId paths lastRecordedPath).2
  ∧ (∀ c, head (pageViewEffect_run getPageType sessionId paths lastRecordedPath).2
          = Some c → lastRecordedPath ≠ Some (arg_path c))
  ∧ arg_path <$> (pageViewEffect_run getPageType sessionId paths lastRecordedPath).2
    `sublist_of` paths
  ∧ (∀ path, path ∈ paths →
       path ∈ arg_path
              <$> (pageViewEffect_run getPageType sessionId paths lastRecordedPath).2
       ∨ lastRecordedPath = Some path)
  ∧ Forall (λ c, arg_pageType c = getPageType (arg_path c)
                 ∧ arg_viewSessionId c = sessionId)
      (pageViewEffect_run getPageType sessionId paths lastRecordedPath).2
  ∧ (pageViewEffect_run getPageType sessionId paths lastRecordedPath).1
    = match last paths with Some p => Some p | None => lastRecordedPath end.
Proof.
  revert lastRecordedPath.
  induction paths as [|path paths IH]; intros ref.
  - simpl. split_and!.
    + constructor.
    + intros c Hc. discriminate.
    + constructor.
    + intros p Hin. inversion Hin.
    + constructor.
    + reflexivity.
  - rewrite pageViewEffect_run_cons.
    destruct (decide (ref = Some path)) as [->|Hne].
    + rewrite pageViewEffect_same. simpl.
      destruct (IH (Some path)) as (Hsorted & Hhead & Hsub & Hall & Hargs & Hlast).
      split_and!; try assumption.
      * by apply sublist_cons.
      * intros p Hp. apply elem_of_cons in Hp as [->|Hp]; [by right|].
        by apply Hall.
      * rewrite Hlast, last_cons. destruct (last paths); reflexivity.
    + rewrite (pageViewEffect_changed getPageType sessionId path ref Hne). simpl.
      destruct (IH (Some path)) as (Hsorted & Hhead & Hsub & Hall & Hargs & Hlast).
      split_and!.
      * constructor; [exact Hsorted|].
        destruct (pageViewEffect_run getPageType sessionId paths (Some path)).2
          as [|c calls] eqn:E; constructor.
        unfold path_changed. simpl. intros Heq.
        apply (Hhead c); [reflexivity|]. by rewrite Heq.
      * intros c [= <-]. exact Hne.
      * by apply sublist_skip.
      * intros p Hp. left. apply elem_of_cons in Hp as [->|Hp]; [by left|].
        destruct (Hall p Hp) as [Hin|[= ->]]; [by right|by left].
      * constructor; [by split|exact Hargs].
      * rewrite Hlast, last_cons. destruct (last paths); reflexivity.
Qed.

Section TabTraffic.

Implicit Types (t : Tab) (e : TabEvent) (r : Refs) (now : Z) (path : string).

(** The two ways through [sendHeartbeat]. *)
Lemma sendHeartbeat_cases now path r :
  sendHeartbeat now path r = (r, None)
  ∨ (isHeartbeatPending r = false
     ∧ ¬ (lastHeartbeatPath r = Some path
          ∧ now - lastHeartbeatTime r < HEARTBEAT_DEBOUNCE_MS)
     ∧ ∃ id, sessionIdRef r = Some id
             ∧ sendHeartbeat now path r
               = (mkRefs (Some id) true now (Some path),
                  Some (mkHeartbeatArgs id path))).
Proof.
  unfold sendHeartbeat.
  destruct (sessionIdRef r) as [id|]; simpl; [|by left].
  destruct (bool_decide (id = EmptyString)); [by left|].
  destruct (isHeartbeatPending r); [by left|].
  destruct (decide (lastHeartbeatPath r = Some path
                    ∧ now - lastHeartbeatTime r < HEARTBEAT_DEBOUNCE_MS))
    as [[Hp Ht]|Hn].
  - rewrite !bool_decide_eq_true_2 by assumption. by left.
  - right. split; [reflexivity|]. split; [exact Hn|]. exists id.
    split; [reflexivity|].
    destruct (bool_decide (lastHeartbeatPath r = Some path)) eqn:E1;
      destruct (bool_decide (now - lastHeartbeatTime r < HEARTBEAT_DEBOUNCE_MS))
        eqn:E2; simpl; try reflexivity.
    exfalso. apply Hn.
    split; [by apply bool_decide_eq_true in E1|by apply bool_decide_eq_true in E2].
Qed.

Lemma tab_step_in_flight t e : one_in_flight t → one_in_flight (tab_step t e).
Proof.
  unfold one_in_flight. intros Hinv. destruct e as [now path|outcome]; simpl.
  - destruct (sendHeartbeat_cases now path (tab_refs t))
      as [->|(Hpend & _ & id & _ & ->)]; simpl; [exact Hinv|].
    rewrite Hpend in Hinv. rewrite length_app, Hinv. reflexivity.
  - destruct (tab_inFlight t) as [|c rest] eqn:E; [by rewrite E|].
    simpl in *. destruct (isHeartbeatPending (tab_refs t)); [|discriminate].
    lia.
Qed.

Lemma tab_step_log sessionId t e :
  log_in_step sessionId t → log_in_step sessionId (tab_step t e).
Proof.
  intros (Hsid & Hsorted & Hall & Hlast). destruct e as [now path|outcome]; simpl.
  - destruct (sendHeartbeat_cases now path (tab_refs t))
      as [->|(_ & Hguard & id & Hid & ->)]; simpl; [by split_and!|].
    split_and!; simpl.
    + congruence.
    + apply Sorted_snoc; [exact Hsorted|].
      destruct (last (tab_issued t)) as [c|] eqn:E.
      * apply last_Some in E as [l ->]. constructor.
        destruct (Hlast c) as [Htime Hpath]; [reflexivity|].
        unfold debounced. simpl. intros Hsame.
        rewrite Htime, Hpath, Hsame in Hguard.
        destruct (decide (now - c.1 < HEARTBEAT_DEBOUNCE_MS)); [|lia].
        exfalso. apply Hguard. auto.
      * apply last_None in E as ->. constructor.
    + apply Forall_app. split; [exact Hall|].
      constructor; [simpl; congruence|constructor].
    + intros c. rewrite last_snoc. intros [= <-]. simpl. auto.
  - destruct (tab_inFlight t); [by split_and!|]. simpl. by split_and!.
Qed.

Lemma sendHeartbeat_issues now path id tl lp :
  id ≠ EmptyString →
  ¬ (lp = Some path ∧ now - tl < HEARTBEAT_DEBOUNCE_MS) →
  sendHeartbeat now path (mkRefs (Some id) false tl lp)
  = (mkRefs (Some id) true now (Some path), Some (mkHeartbeatArgs id path)).
Proof.
  intros Hid Hguard.
  destruct (sendHeartbeat_cases now path (mkRefs (Some id) false tl lp))
    as [Hskip|(_ & _ & id' & [= <-] & ->)]; [exfalso|reflexivity].
  unfold sendHeartbeat in Hskip. simpl in Hskip.
  rewrite (bool_decide_eq_false_2 (id = EmptyString)) in Hskip by exact Hid.
  destruct (bool_decide (lp = Some path)) eqn:E1;
    destruct (bool_decide (now - tl < HEARTBEAT_DEBOUNCE_MS)) eqn:E2;
    simpl in Hskip; try discriminate Hskip.
  apply Hguard.
  split; [by apply bool_decide_eq_true in E1|by apply bool_decide_eq_true in E2].
Qed.

(** Ticks on time, each call settled before the next: every tick issues. *)
Lemma heartbeatEffect_issued id path (outcomes : list Settled) mounted tl lp log :
  id ≠ EmptyString →
  ¬ (lp = Some path ∧ mounted - tl < HEARTBEAT_DEBOUNCE_MS) →
  tab_issued
    (foldl tab_step (mkTab (mkRefs (Some id) false tl lp) [] log)
       (heartbeatEffect_events mounted path outcomes))
  = log ++ ((λ k : nat, (mounted + Z.of_nat k * HEARTBEAT_INTERVAL_MS,
                         mkHeartbeatArgs id path))
            <$> seq 0 (length outcomes)).
Proof.
  intros Hid. revert mounted tl lp log.
  induction outcomes as [|o outcomes IH]; intros mounted tl lp log Hguard.
  - simpl. by rewrite app_nil_r.
  - simpl. rewrite (sendHeartbeat_issues mounted path id tl lp Hid Hguard). simpl.
    rewrite IH by (unfold HEARTBEAT_DEBOUNCE_MS, HEARTBEAT_INTERVAL_MS; lia).
    rewrite <- app_assoc. f_equal. simpl. f_equal.
    + f_equal. lia.
    + rewrite <- fmap_S_seq, <- list_fmap_compose.
      apply list_fmap_ext. intros i k _. simpl. f_equal. lia.
Qed.

End TabTraffic.

(** X9. One call at a time: whatever the sequence of [sendHeartbeat] runs
    and settlements in a tab, at most one heartbeat call is unsettled at
    any time, and the pending flag is set exactly while one is. *)
Theorem tab_one_call_in_flight (events : list TabEvent) (sessionId : option string) :
  (length (tab_inFlight (foldl tab_step (initialTab sessionId) events)) ≤ 1)%nat
  ∧ (isHeartbeatPending (tab_refs (foldl tab_step (initialTab sessionId) events))
     = true
     ↔ tab_inFlight (foldl tab_step (initialTab sessionId) events) ≠ []).
Proof.
  assert (Hinv : one_in_flight (foldl tab_step (initialTab sessionId) events)).
  { assert (Hgen : ∀ t, one_in_flight t → one_in_flight (foldl tab_step t events)).
    { induction events as [|e events IH]; intros t Ht; [exact Ht|].
      simpl. apply IH. by apply tab_step_in_flight. }
    apply Hgen. reflexivity. }
  unfold one_in_flight in Hinv.
  destruct (isHeartbeatPending (tab_refs (foldl tab_step (initialTab sessionId) events)));
    destruct (tab_inFlight (foldl tab_step (initialTab sessionId) events));
    simpl in *; try discriminate; split; try lia; split; congruence.
Qed.

(** X10. Debounce: in a tab's log of issued heartbeat calls, two successive
    calls for the same path are at least [HEARTBEAT_DEBOUNCE_MS] apart, and
    every call carries the tab's session id. *)
Theorem tab_calls_debounced (events : list TabEvent) (sessionId : option string) :
  Sorted debounced (tab_issued (foldl tab_step (initialTab sessionId) events))
  ∧ Forall (λ c, sessionId = Some (arg_sessionId c.2))
      (tab_issued (foldl tab_step (initialTab sessionId) events)).
Proof.
  assert (Hinv : log_in_step sessionId
                   (foldl tab_step (initialTab sessionId) events)).
  { assert (Hgen : ∀ t, log_in_step sessionId t →
                        log_in_step sessionId (foldl tab_step t events)).
    { induction events as [|e events IH]; intros t Ht; [exact Ht|].
      simpl. apply IH. by apply tab_step_log. }
    apply Hgen.
    split_and!; simpl;
      [reflexivity|constructor|constructor|intros c Hc; discriminate]. }
  destruct Hinv as (_ & Hsorted & Hall & _). auto.
Qed.

(** X11. The heartbeat effect keeps going: with a session id set, timers
    firing on time and each call settling before the next tick, the tab
    issues one call at mount and one at every tick, for its session and
    path, whether the earlier calls were fulfilled or rejected. *)
Theorem heartbeatEffect_every_tick (id path : string) (mounted : Z)
    (outcomes : list Settled) :
  id ≠ EmptyString →
  tab_issued
    (foldl tab_step (initialTab (Some id))
       (heartbeatEffect_events mounted path outcomes))
  = (λ k : nat, (mounted + Z.of_nat k * HEARTBEAT_INTERVAL_MS,
                 mkHeartbeatArgs id path))
    <$> seq 0 (length outcomes).
Proof.
  intros Hid. unfold initialTab, initialRefs.
  rewrite heartbeatEffect_issued; [reflexivity|exact Hid|].
  intros [Hpath _]. discriminate Hpath.
Qed.

Lemma heartbeatEffect_every_tick_witness :
  "3f2b9c1e-uuid" ≠ EmptyString
  ∧ tab_issued
      (foldl tab_step (initialTab (Some "3f2b9c1e-uuid"))
         (heartbeatEffect_events 1000 "/docs" [Fulfilled; Rejected; Fulfilled]))
    = [(1000, mkHeartbeatArgs "3f2b9c1e-uuid" "/docs");
       (31000, mkHeartbeatArgs "3f2b9c1e-uuid" "/docs");
       (61000, mkHeartbeatArgs "3f2b9c1e-uuid" "/docs")].
Proof.
  assert (H : "3f2b9c1e-uuid" ≠ EmptyString) by discriminate.
  split; [exact H|].
  rewrite (heartbeatEffect_every_tick "3f2b9c1e-uuid" "/docs" 1000
             [Fulfilled; Rejected; Fulfilled] H).
  reflexivity.
Defined.

Section Refresh.

Implicit Types (db : Db) (sessionId currentPath : string) (now : Z).

(** A heartbeat at least a window after the stored [lastSeen] is never
    short-circuited. *)
Lemma heartbeat_refresh now sessionId currentPath db :
  (∀ r, head (by_sessionId sessionId db) = Some r →
        HEARTBEAT_DEDUP_MS ≤ now - ActiveSession.lastSeen r) →
  ∃ r', head (by_sessionId sessionId (heartbeat now sessionId currentPath db))
        = Some r'
        ∧ ActiveSession.currentPath r' = currentPath
        ∧ ActiveSession.lastSeen r' = now.
Proof.
  intros Hold.
  destruct (heartbeat_cases now sessionId currentPath db)
    as [ex Hex _ Ht|ex Hex _|Hnone].
  - specialize (Hold ex Hex). lia.
  - rewrite by_sessionId_patch.
    destruct (by_sessionId sessionId db) as [|s l]; [discriminate|].
    simpl in Hex. injection Hex as ->.
    rewrite fmap_cons, patch_doc_self. simpl. eauto.
  - rewrite by_sessionId_insert_same, Hnone. simpl. eauto.
Qed.

End Refresh.

(** X12. Heartbeats at least [HEARTBEAT_DEDUP_MS] apart are all accepted:
    when one session's calls are that far apart, the first one that far
    after the stored [lastSeen] if there is one, then after the run the
    session's document carries the instant and the path of the last call.
    (The client's 30 s interval is such a spacing.) *)
Theorem heartbeat_spaced_calls_refresh sessionId (c : HeartbeatCall)
    (calls : list HeartbeatCall) db :
  Forall (λ c, call_sessionId c = sessionId) (c :: calls) →
  (∀ r, head (by_sessionId sessionId db) = Some r →
        HEARTBEAT_DEDUP_MS ≤ call_now c - ActiveSession.lastSeen r) →
  spaced_from (call_now c) calls →
  ∃ r, head (by_sessionId sessionId (heartbeat_calls (c :: calls) db)) = Some r
       ∧ ActiveSession.lastSeen r = call_now (default c (last calls))
       ∧ ActiveSession.currentPath r = call_currentPath (default c (last calls)).
Proof.
  revert c db. induction calls as [|c' calls IH]; intros c db Hsid Hold Hspaced.
  - apply Forall_cons in Hsid as [<- _]. simpl.
    destruct (heartbeat_refresh (call_now c) (call_sessionId c)
                (call_currentPath c) db Hold) as (r & Hr & Hp & Ht).
    eauto.
  - apply Forall_cons in Hsid as [Hc Hsid]. destruct Hspaced as [Hgap Hspaced].
    change (heartbeat_calls (c :: c' :: calls) db)
      with (heartbeat_calls (c' :: calls)
              (heartbeat (call_now c) (call_sessionId c) (call_currentPath c) db)).
    assert (Hlast : default c (last (c' :: calls)) = default c' (last calls))
      by (rewrite last_cons; destruct (last calls); reflexivity).
    rewrite Hlast.
    apply IH; [exact Hsid| |exact Hspaced].
    intros r Hr. rewrite Hc in Hr.
    destruct (heartbeat_refresh (call_now c) sessionId (call_currentPath c) db)
      as (r' & Hr' & _ & Ht); [exact Hold|].
    rewrite Hr' in Hr. injection Hr as <-. lia.
Qed.

Lemma heartbeat_spaced_calls_refresh_witness :
  Forall (λ c, call_sessionId c = "S1")
    [mkHeartbeatCall 1000 "S1" "/"; mkHeartbeatCall 31000 "S1" "/";
     mkHeartbeatCall 61000 "S1" "/docs"]
  ∧ (∀ r, head (by_sessionId "S1" emptyDb) = Some r →
          HEARTBEAT_DEDUP_MS ≤ 1000 - ActiveSession.lastSeen r)
  ∧ spaced_from 1000
      [mkHeartbeatCall 31000 "S1" "/"; mkHeartbeatCall 61000 "S1" "/docs"]
  ∧ ∃ r, head (by_sessionId "S1"
                 (heartbeat_calls
                    [mkHeartbeatCall 1000 "S1" "/"; mkHeartbeatCall 31000 "S1" "/";
                     mkHeartbeatCall 61000 "S1" "/docs"] emptyDb)) = Some r
         ∧ ActiveSession.lastSeen r = 61000
         ∧ ActiveSession.currentPath r = "/docs".
Proof.
  assert (H1 : Forall (λ c, call_sessionId c = "S1")
                 [mkHeartbeatCall 1000 "S1" "/"; mkHeartbeatCall 31000 "S1" "/";
                  mkHeartbeatCall 61000 "S1" "/docs"])
    by (repeat constructor).
  assert (H2 : ∀ r, head (by_sessionId "S1" emptyDb) = Some r →
                    HEARTBEAT_DEDUP_MS ≤ 1000 - ActiveSession.lastSeen r)
    by (intros r Hr; discriminate Hr).
  assert (H3 : spaced_from 1000
                 [mkHeartbeatCall 31000 "S1" "/"; mkHeartbeatCall 61000 "S1" "/docs"]).
  { simpl. unfold HEARTBEAT_DEDUP_MS. lia. }
  split; [exact H1|]. split; [exact H2|]. split; [exact H3|].
  exact (heartbeat_spaced_calls_refresh "S1" (mkHeartbeatCall 1000 "S1" "/")
           [mkHeartbeatCall 31000 "S1" "/"; mkHeartbeatCall 61000 "S1" "/docs"]
           emptyDb H1 H2 H3).
Defined.

(** * Title matching *)

Section Titles.

Implicit Types (posts pages : list Content.t) (path slug title pageType : string).

Lemma head_filter_slug (docs : list Content.t) (doc : Content.t) :
  NoDup (Content.slug <$> docs) → doc ∈ docs →
  head (filter (λ p, Content.slug p = Content.slug doc) docs) = Some doc.
Proof.
  induction docs as [|d docs IH]; intros Hnd Hin; [inversion Hin|].
  rewrite fmap_cons in Hnd. apply NoDup_cons in Hnd as [Hd Hnd].
  apply elem_of_cons in Hin as [->|Hin].
  - rewrite filter_cons_True by reflexivity. reflexivity.
  - rewrite filter_cons_False; [by apply IH|].
    intros Heq. apply Hd. rewrite Heq. by apply list_elem_of_fmap_2.
Qed.

Lemma filter_slug_none (docs : list Content.t) slug :
  slug ∉ Content.slug <$> docs →
  filter (λ p, Content.slug p = slug) docs = [].
Proof.
  induction docs as [|d docs IH]; intros Hout; [reflexivity|].
  rewrite fmap_cons in Hout. apply not_elem_of_cons in Hout as [Hne Hout].
  rewrite filter_cons_False by congruence. by apply IH.
Qed.

End Titles.

(** X13. Links resolve back: with slugs distinct within each table, the
    path ["/" ++ slug] of a post resolves to that post's title as a "blog"
    entry whatever pages exist, and the path of a page resolves to that
    page's title as a "page" entry provided no post has the same slug. *)
Theorem matchTitle_link_round_trip (posts pages : list Content.t)
    (title pageType : string) :
  NoDup (Content.slug <$> posts) →
  NoDup (Content.slug <$> pages) →
  (∀ post, post ∈ posts →
     matchTitle posts pages (String "/"%char (Content.slug post)) title pageType
     = (Content.title post, "blog"))
  ∧ (∀ page, page ∈ pages → Content.slug page ∉ Content.slug <$> posts →
       matchTitle posts pages (String "/"%char (Content.slug page)) title pageType
       = (Content.title page, "page")).
Proof.
  intros Hposts Hpages. split.
  - intros post Hin. unfold matchTitle. simpl.
    rewrite (head_filter_slug posts post Hposts Hin). reflexivity.
  - intros page Hin Hout. unfold matchTitle. simpl.
    rewrite (filter_slug_none posts _ Hout). simpl.
    rewrite (head_filter_slug pages page Hpages Hin). reflexivity.
Qed.

Lemma matchTitle_link_round_trip_witness :
  NoDup (Content.slug <$> [Content.mk "version-rc1" "Markdown Sync RC1 Release";
                           Content.mk "about" "About (post)"])
  ∧ NoDup (Content.slug <$> [Content.mk "about" "About"; Content.mk "docs" "Docs"])
  ∧ matchTitle
      [Content.mk "version-rc1" "Markdown Sync RC1 Release";
       Content.mk "about" "About (post)"]
      [Content.mk "about" "About"; Content.mk "docs" "Docs"]
      "/about" "/about" "other"
    = ("About (post)", "blog").
Proof.
  assert (H1 : NoDup (Content.slug
                        <$> [Content.mk "version-rc1" "Markdown Sync RC1 Release";
                             Content.mk "about" "About (post)"])).
  { apply (bool_decide_unpack _). vm_compute. exact I. }
  assert (H2 : NoDup (Content.slug
                        <$> [Content.mk "about" "About"; Content.mk "docs" "Docs"])).
  { apply (bool_decide_unpack _). vm_compute. exact I. }
  split; [exact H1|]. split; [exact H2|].
  apply (proj1 (matchTitle_link_round_trip _ _ "/about" "other" H1 H2)
           (Content.mk "about" "About (post)")).
  right. left.
Defined.

(** X14. Path normalisation: one leading slash is optional, so ["/" ++ s]
    and [s] resolve alike when [s] does not itself start with a slash; only
    one slash is dropped; and a path whose slug matches no post and no page
    leaves the title and the page type as they were. *)
Theorem matchTitle_normalisation (posts pages : list Content.t)
    (s title pageType : string) :
  (slug_of_path s = s →
   matchTitle posts pages (String "/"%char s) title pageType
   = matchTitle posts pages s title pageType)
  ∧ slug_of_path (String "/"%char (String "/"%char s)) = String "/"%char s
  ∧ (slug_of_path s ∉ Content.slug <$> posts →
     slug_of_path s ∉ Content.slug <$> pages →
     matchTitle posts pages s title pageType = (title, pageType)).
Proof.
  split_and!.
  - intros Hs. unfold matchTitle. simpl. rewrite Hs. reflexivity.
  - reflexivity.
  - intros Hposts Hpages. unfold matchTitle.
    rewrite (filter_slug_none posts _ Hposts), (filter_slug_none pages _ Hpages).
    reflexivity.
Qed.

(** * Ask AI *)

Section AskAIConfiguration.

Implicit Types (env : gmap string string).

Lemma checkConfiguration_missingKeys env :
  missingKeys (checkConfiguration env)
  = (if falsy (env !! "OPENAI_API_KEY") then ["OPENAI_API_KEY"] else [])
    ++ (if falsy (env !! "ANTHROPIC_API_KEY") then ["ANTHROPIC_API_KEY"] else []).
Proof.
  unfold checkConfiguration. simpl.
  destruct (falsy (env !! "OPENAI_API_KEY")),
           (falsy (env !! "ANTHROPIC_API_KEY")); reflexivity.
Qed.

Lemma elem_of_if_singleton (b : bool) (k x : string) :
  x ∈ (if b then [k] else []) ↔ x = k ∧ b = true.
Proof.
  destruct b.
  - rewrite list_elem_of_singleton. tauto.
  - rewrite elem_of_nil. split; [tauto|]. intros [_ H]. discriminate H.
Qed.

End AskAIConfiguration.

(** X15. The configuration check: [configured] is true exactly when
    [OPENAI_API_KEY] is set to a non-empty value, whatever
    [ANTHROPIC_API_KEY] is; [missingKeys] holds exactly those of the two
    keys that are unset or empty; and the modal's configuration warning,
    once the check has answered, is shown exactly when the OpenAI key is
    missing, so never for a missing Anthropic key alone. *)
Theorem checkConfiguration_spec (env : gmap string string) :
  configured (checkConfiguration env) = negb (falsy (env !! "OPENAI_API_KEY"))
  ∧ (∀ key, key ∈ missingKeys (checkConfiguration env)
            ↔ (key = "OPENAI_API_KEY" ∨ key = "ANTHROPIC_API_KEY")
              ∧ falsy (env !! key) = true)
  ∧ showsConfigWarning true (Some (checkConfiguration env))
    = falsy (env !! "OPENAI_API_KEY").
Proof.
  split_and!.
  - unfold checkConfiguration. simpl.
    destruct (falsy (env !! "OPENAI_API_KEY")),
             (falsy (env !! "ANTHROPIC_API_KEY")); reflexivity.
  - intros key. rewrite checkConfiguration_missingKeys, elem_of_app.
    rewrite !elem_of_if_singleton. split.
    + intros [[-> H]|[-> H]]; auto.
    + intros [[->| ->] H]; [left|right]; auto.
  - unfold showsConfigWarning, checkConfiguration. simpl.
    destruct (falsy (env !! "OPENAI_API_KEY")),
             (falsy (env !! "ANTHROPIC_API_KEY")); reflexivity.
Qed.

Section AskAISessions.

Implicit Types (db : AskDb) (streamId question : string) (model : option string).

Lemma getSessionByStreamId_createSession_other now newStreamId question model
    streamId db :
  streamId ≠ newStreamId →
  getSessionByStreamId streamId
    (createSession now newStreamId question model db).1
  = getSessionByStreamId streamId db.
Proof.
  intros Hne. unfold getSessionByStreamId, createSession. simpl.
  rewrite filter_app, filter_cons_False by (simpl; congruence).
  rewrite filter_nil, app_nil_r. reflexivity.
Qed.

Lemma getSessionByStreamId_createSession_fresh now newStreamId question model db :
  newStreamId ∉ AskAISession.streamId <$> askAISessions db →
  getSessionByStreamId newStreamId
    (createSession now newStreamId question model db).1
  = Some (question,
          Some (if falsy model then DEFAULT_MODEL else default DEFAULT_MODEL model)).
Proof.
  intros Hfresh. unfold getSessionByStreamId, createSession. simpl.
  rewrite filter_app, filter_cons_True by reflexivity.
  assert (Hnone : filter (λ s, AskAISession.streamId s = newStreamId)
                         (askAISessions db) = []).
  { induction (askAISessions db) as [|s l IH]; [reflexivity|].
    rewrite fmap_cons in Hfresh. apply not_elem_of_cons in Hfresh as [Hne Hl].
    rewrite filter_cons_False by congruence. by apply IH. }
  rewrite Hnone. simpl. destruct model as [m|]; reflexivity.
Qed.

End AskAISessions.

(** X16. A created session is found by the stream endpoint: when
    [createStream] returns a non-empty id that no stored session has,
    [streamResponse] called with that id gets past its 400 and 404 replies
    with the stored question and the chosen model, or the default model
    when none (or an empty one) was chosen; and lookups of every other
    stream id answer as before the session was created. *)
Theorem createSession_round_trip now (newStreamId question : string)
    (model : option string) (db : AskDb) :
  newStreamId ≠ EmptyString →
  newStreamId ∉ AskAISession.streamId <$> askAISessions db →
  (createSession now newStreamId question model db).2.2 = newStreamId
  ∧ streamResponse_session (Some (Some newStreamId))
      (createSession now newStreamId question model db).1
    = inr (question,
           Some (if falsy model then DEFAULT_MODEL else default DEFAULT_MODEL model))
  ∧ (∀ other, other ≠ newStreamId →
       streamResponse_session (Some (Some other))
         (createSession now newStreamId question model db).1
       = streamResponse_session (Some (Some other)) db).
Proof.
  intros Hne Hfresh. split_and!.
  - reflexivity.
  - unfold streamResponse_session.
    change (falsy (Some newStreamId))
      with (bool_decide (newStreamId = EmptyString)).
    rewrite bool_decide_eq_false_2 by exact Hne.
    rewrite getSessionByStreamId_createSession_fresh by exact Hfresh.
    reflexivity.
  - intros other Hother. unfold streamResponse_session.
    rewrite getSessionByStreamId_createSession_other by exact Hother.
    reflexivity.
Qed.

Lemma createSession_round_trip_witness :
  "stream-1" ≠ EmptyString
  ∧ ("stream-1" ∉ AskAISession.streamId <$> askAISessions (mkAskDb [] 0))
  ∧ streamResponse_session (Some (Some "stream-1"))
      (createSession 1000 "stream-1" "What is RC1?" (Some EmptyString)
         (mkAskDb [] 0)).1
    = inr ("What is RC1?", Some "claude-sonnet-4-20250514").
Proof.
  assert (H1 : "stream-1" ≠ EmptyString) by discriminate.
  assert (H2 : "stream-1" ∉ AskAISession.streamId <$> askAISessions (mkAskDb [] 0))
    by apply not_elem_of_nil.
  split; [exact H1|]. split; [exact H2|].
  exact (proj1 (proj2 (createSession_round_trip 1000 "stream-1" "What is RC1?"
                         (Some EmptyString) (mkAskDb [] 0) H1 H2))).
Defined.

Section Streaming.

Implicit Types (o : Output) (chunk : JsString) (chunks : list JsString).

Lemma appendChunk_open chunk o :
  appendChunk stays_open chunk o
  = (mkOutput (out_chunks o ++ [chunk]) (S (out_calls o)), Normal).
Proof. reflexivity. Qed.

Lemma appendAndReturn_open chunk o :
  appendAndReturn stays_open chunk o
  = (mkOutput (out_chunks o ++ [chunk]) (S (out_calls o)), Returned).
Proof. reflexivity. Qed.

Lemma appendEach_open chunks o :
  appendEach stays_open chunks o
  = (mkOutput (out_chunks o ++ chunks) (out_calls o + length chunks), Normal).
Proof.
  revert o. induction chunks as [|chunk chunks IH]; intros o.
  - simpl. rewrite app_nil_r, Nat.add_0_r. by destruct o.
  - simpl. rewrite IH. simpl. rewrite <- app_assoc. simpl.
    do 2 f_equal. lia.
Qed.

(** Reading a run of code units: the parts read make up the run and the
    rest of the text, and each part is all spaces or free of them. *)
Lemma split_runs_spec (word : JsString) (spaces : bool) (text : JsString) :
  mjoin (split_runs word spaces text) = word ++ text
  ∧ (Forall (λ c, is_space c = spaces) word →
     Forall (λ part, Forall (λ c, is_space c = true) part
                     ∨ Forall (λ c, is_space c = false) part)
            (split_runs word spaces text)).
Proof.
  assert (Hrun : ∀ w b, Forall (λ c, is_space c = b) w →
                        Forall (λ c, is_space c = true) w
                        ∨ Forall (λ c, is_space c = false) w).
  { intros w []; auto. }
  revert word spaces. induction text as [|c rest IH]; intros word spaces.
  - simpl. destruct spaces; simpl; rewrite ?app_nil_r; split; try reflexivity.
    + intros Hw. constructor; [by left|]. constructor; [by left|constructor].
    + intros Hw. constructor; [by right|constructor].
  - simpl. destruct (decide (is_space c = spaces)) as [Hc|Hc].
    + rewrite bool_decide_eq_true_2 by exact Hc.
      destruct (IH (word ++ [c]) spaces) as [Hjoin Hparts].
      split; [by rewrite Hjoin, <- app_assoc|].
      intros Hw. apply Hparts, Forall_app. split; [exact Hw|].
      constructor; [exact Hc|constructor].
    + rewrite bool_decide_eq_false_2 by exact Hc.
      destruct (IH [c] (is_space c)) as [Hjoin Hparts].
      split; [simpl; by rewrite Hjoin|].
      intros Hw. constructor; [by apply (Hrun word spaces)|].
      apply Hparts. constructor; [reflexivity|constructor].
Qed.

End Streaming.

(** X17. Streaming word by word loses nothing: the parts into which a text
    block is split make up the text again when joined in order, and each
    part is either a run of white space or free of white space. *)
Theorem split_words_round_trip (text : JsString) :
  mjoin (split_words text) = text
  ∧ Forall (λ part, Forall (λ c, is_space c = true) part
                    ∨ Forall (λ c, is_space c = false) part)
           (split_words text).
Proof.
  destruct (split_runs_spec [] false text) as [Hjoin Hparts].
  split; [exact Hjoin|]. apply Hparts. constructor.
Qed.

(** X18. Without an OpenAI key the answer is one error chunk: whatever the
    question, the chosen model and the models' behaviour, the stream holds
    exactly the message that [OPENAI_API_KEY] is not configured; this is the
    case in which [checkConfiguration] reports [configured = false]. *)
Theorem streamResponse_unconfigured (env : gmap string string) (models : Models)
    (search : Thrown + list SearchResult) (question : JsString)
    (model : option string) :
  falsy (env !! "OPENAI_API_KEY") = true →
  configured (checkConfiguration env) = false
  ∧ out_chunks (streamResponse_answer stays_open env models search question model)
    = [js "**Error:** "
       ++ js "OPENAI_API_KEY not configured. Please add it to your Convex dashboard environment variables."].
Proof.
  intros Hkey. split.
  - unfold checkConfiguration. simpl. rewrite Hkey. reflexivity.
  - unfold streamResponse_answer, prefetchSearch. rewrite Hkey.
    unfold generateAnswer, generateAnswer_try.
    change (truthy (Some (js "OPENAI_API_KEY not configured. Please add it to your Convex dashboard environment variables.")))
      with true.
    cbv iota. rewrite appendAndReturn_open. reflexivity.
Qed.

Lemma streamResponse_unconfigured_witness :
  falsy ((∅ : gmap string string) !! "OPENAI_API_KEY") = true
  ∧ out_chunks
      (streamResponse_answer stays_open ∅
         (mkModels (λ _, ([], None)) (λ _, inr []))
         (inr []) (js "What is RC1?") None)
    = [js "**Error:** "
       ++ js "OPENAI_API_KEY not configured. Please add it to your Convex dashboard environment variables."].
Proof.
  assert (H : falsy ((∅ : gmap string string) !! "OPENAI_API_KEY") = true)
    by reflexivity.
  split; [exact H|].
  exact (proj2 (streamResponse_unconfigured ∅
                  (mkModels (λ _, ([], None)) (λ _, inr []))
                  (inr []) (js "What is RC1?") None H)).
Defined.

(** X19. Configured, yet the default model cannot answer: with the OpenAI
    key set and the Anthropic key missing, [checkConfiguration] reports
    [configured = true] and the modal shows no warning, but for every model
    other than "gpt-4o" and every non-empty search result the stream holds
    exactly the message that [ANTHROPIC_API_KEY] is not configured. *)
Theorem streamResponse_anthropic_key_missing (env : gmap string string)
    (models : Models) (results : list SearchResult) (question : JsString)
    (model : option string) :
  falsy (env !! "OPENAI_API_KEY") = false →
  falsy (env !! "ANTHROPIC_API_KEY") = true →
  model ≠ Some "gpt-4o" →
  results ≠ [] →
  configured (checkConfiguration env) = true
  ∧ showsConfigWarning true (Some (checkConfiguration env)) = false
  ∧ out_chunks
      (streamResponse_answer stays_open env models (inr results) question model)
    = [js "**Error:** ANTHROPIC_API_KEY not configured in Convex dashboard."].
Proof.
  intros Hopenai Hanthropic Hmodel Hresults. split_and!.
  - unfold checkConfiguration. simpl. rewrite Hopenai, Hanthropic. reflexivity.
  - unfold showsConfigWarning, checkConfiguration. simpl.
    rewrite Hopenai, Hanthropic. reflexivity.
  - unfold streamResponse_answer, prefetchSearch. rewrite Hopenai.
    unfold generateAnswer, generateAnswer_try.
    rewrite bool_decide_eq_false_2 by (by destruct results).
    rewrite (bool_decide_eq_false_2 (model = _)) by exact Hmodel.
    rewrite Hanthropic, appendAndReturn_open. reflexivity.
Qed.

Lemma streamResponse_anthropic_key_missing_witness :
  falsy (({["OPENAI_API_KEY" := "sk-1"]} : gmap string string) !! "OPENAI_API_KEY")
  = false
  ∧ falsy (({["OPENAI_API_KEY" := "sk-1"]} : gmap string string)
           !! "ANTHROPIC_API_KEY") = true
  ∧ Some DEFAULT_MODEL ≠ Some "gpt-4o"
  ∧ [mkSearchResult (js "RC1") (js "version-rc1") "post" (js "text")] ≠ []
  ∧ out_chunks
      (streamResponse_answer stays_open {["OPENAI_API_KEY" := "sk-1"]}
         (mkModels (λ _, ([], None)) (λ _, inr []))
         (inr [mkSearchResult (js "RC1") (js "version-rc1") "post" (js "text")])
         (js "What is RC1?") (Some DEFAULT_MODEL))
    = [js "**Error:** ANTHROPIC_API_KEY not configured in Convex dashboard."].
Proof.
  assert (H1 : falsy (({["OPENAI_API_KEY" := "sk-1"]} : gmap string string)
                      !! "OPENAI_API_KEY") = false) by reflexivity.
  assert (H2 : falsy (({["OPENAI_API_KEY" := "sk-1"]} : gmap string string)
                      !! "ANTHROPIC_API_KEY") = true) by reflexivity.
  assert (H3 : Some DEFAULT_MODEL ≠ Some "gpt-4o") by discriminate.
  assert (H4 : [mkSearchResult (js "RC1") (js "version-rc1") "post" (js "text")]
               ≠ []) by discriminate.
  split; [exact H1|]. split; [exact H2|]. split; [exact H3|]. split; [exact H4|].
  exact (proj2 (proj2 (streamResponse_anthropic_key_missing _
                         (mkModels (λ _, ([], None)) (λ _, inr []))
                         _ (js "What is RC1?") _ H1 H2 H3 H4))).
Defined.

Section Answer.

Implicit Types (env : gmap string string) (models : Models)
  (searchResults : list SearchResult) (question : JsString)
  (model : option string).

Lemma app_cons_not_nil {A} (l k : list A) (x : A) : l ++ x :: k ≠ [].
Proof. destruct l; discriminate. Qed.

(** The [try] block when the pre-fetch succeeded with some result, up to
    the branch on the model. *)
Lemma generateAnswer_try_searched closed env models searchError searchResults
    question model o :
  truthy searchError = false →
  searchResults ≠ [] →
  generateAnswer_try closed env models searchError searchResults question model o
  = let prompt := fullPrompt question searchResults in
    let '(o, c) :=
      if bool_decide (model = Some "gpt-4o")
      then
        if falsy (env !! "OPENAI_API_KEY")
        then appendAndReturn closed
               (js "**Error:** OPENAI_API_KEY not configured.") o
        else
          let '(contents, failure) := openai_stream models prompt in
          match appendEach closed
                  (omap (λ content, if truthy content then content else None)
                        contents) o with
          | (o', Normal) =>
              (o', match failure with Some e => Threw e | None => Normal end)
          | stopped => stopped
          end
      else
        if falsy (env !! "ANTHROPIC_API_KEY")
        then appendAndReturn closed
               (js "**Error:** ANTHROPIC_API_KEY not configured in Convex dashboard.") o
        else
          match anthropic_create models prompt with
          | inl e => (o, Threw e)
          | inr content =>
              appendEach closed
                (content ≫= λ block,
                   if bool_decide (block_type block = "text")
                   then split_words (block_text block) else [])
                o
          end in
    match c with
    | Normal =>
        appendEach closed (SOURCES_HEADER :: (sourceLine <$> searchResults)) o
    | stopped => (o, stopped)
    end.
Proof.
  intros Herror Hresults. unfold generateAnswer_try.
  rewrite (bool_decide_eq_false_2 (length searchResults = 0%nat))
    by (by destruct searchResults).
  destruct searchError as [error|]; [rewrite Herror|]; reflexivity.
Qed.

End Answer.

(** X20. The answer is never silent: while the stream stays open,
    [generateAnswer] appends at least one chunk, whatever the search
    outcome, the keys, the chosen model and the models' behaviour,
    failures included. *)
Theorem generateAnswer_never_silent (env : gmap string string) (models : Models)
    (searchError : option JsString) (searchResults : list SearchResult)
    (question : JsString) (model : option string) :
  out_chunks
    (generateAnswer stays_open env models searchError searchResults question model)
  ≠ [].
Proof.
  unfold generateAnswer.
  destruct (truthy searchError) eqn:Herror.
  { unfold generateAnswer_try.
    destruct searchError as [error|]; [|discriminate Herror].
    rewrite Herror, appendAndReturn_open. simpl. discriminate. }
  destruct (decide (searchResults = [])) as [->|Hresults].
  { unfold generateAnswer_try.
    destruct searchError as [error|]; [rewrite Herror|];
      simpl; discriminate. }
  rewrite generateAnswer_try_searched by assumption. cbv zeta.
  destruct (bool_decide (model = Some "gpt-4o")).
  - destruct (falsy (env !! "OPENAI_API_KEY")).
    + rewrite appendAndReturn_open. simpl. discriminate.
    + destruct (openai_stream models (fullPrompt question searchResults))
        as [contents failure].
      rewrite appendEach_open. destruct failure as [e|].
      * rewrite appendChunk_open. simpl. apply app_cons_not_nil.
      * rewrite appendEach_open. simpl. apply app_cons_not_nil.
  - destruct (falsy (env !! "ANTHROPIC_API_KEY")).
    + rewrite appendAndReturn_open. simpl. discriminate.
    + destruct (anthropic_create models (fullPrompt question searchResults))
        as [e|content].
      * rewrite appendChunk_open. simpl. discriminate.
      * rewrite appendEach_open, appendEach_open. simpl. apply app_cons_not_nil.
Qed.

(** X21. A failing model is reported, and no sources are cited: with a
    search result, the key set and the stream open, when the OpenAI stream
    throws after delivering some chunks, the stream holds the non-empty
    contents delivered followed by the error message as its last chunk; when
    the Anthropic call throws, the stream holds the error message alone.
    A thrown value that is not an [Error] is reported as "Unknown error". *)
Theorem generateAnswer_model_failure (env : gmap string string) (models : Models)
    (searchError : option JsString) (searchResults : list SearchResult)
    (question : JsString) (model : option string) (e : Thrown) :
  truthy searchError = false →
  searchResults ≠ [] →
  (∀ contents,
     model = Some "gpt-4o" →
     falsy (env !! "OPENAI_API_KEY") = false →
     openai_stream models (fullPrompt question searchResults)
       = (contents, Some e) →
     out_chunks
       (generateAnswer stays_open env models searchError searchResults question
          model)
     = omap (λ content, if truthy content then content else None) contents
       ++ [LF ++ LF ++ js "**Error:** " ++ error_message (js "Unknown error") e])
  ∧ (model ≠ Some "gpt-4o" →
     falsy (env !! "ANTHROPIC_API_KEY") = false →
     anthropic_create models (fullPrompt question searchResults) = inl e →
     out_chunks
       (generateAnswer stays_open env models searchError searchResults question
          model)
     = [LF ++ LF ++ js "**Error:** " ++ error_message (js "Unknown error") e]).
Proof.
  intros Herror Hresults. split.
  - intros contents Hmodel Hkey Hstream. unfold generateAnswer.
    rewrite generateAnswer_try_searched by assumption. cbv zeta.
    rewrite bool_decide_eq_true_2 by exact Hmodel.
    rewrite Hkey, Hstream, appendEach_open, appendChunk_open. reflexivity.
  - intros Hmodel Hkey Hcreate. unfold generateAnswer.
    rewrite generateAnswer_try_searched by assumption. cbv zeta.
    rewrite bool_decide_eq_false_2 by exact Hmodel.
    rewrite Hkey, Hcreate, appendChunk_open. reflexivity.
Qed.

Lemma generateAnswer_model_failure_witness :
  truthy None = false
  ∧ [mkSearchResult (js "RC1") (js "version-rc1") "post" (js "text")] ≠ []
  ∧ out_chunks
      (generateAnswer stays_open {["OPENAI_API_KEY" := "sk-1"]}
         (mkModels (λ _, ([Some (js "RC1 "); None; Some (js "adds")],
                          Some (ThrownError (js "rate limit"))))
                   (λ _, inr []))
         None [mkSearchResult (js "RC1") (js "version-rc1") "post" (js "text")]
         (js "What is RC1?") (Some "gpt-4o"))
    = [js "RC1 "; js "adds";
       LF ++ LF ++ js "**Error:** " ++ js "rate limit"].
Proof.
  assert (H1 : truthy None = false) by reflexivity.
  assert (H2 : [mkSearchResult (js "RC1") (js "version-rc1") "post" (js "text")]
               ≠ []) by discriminate.
  split; [exact H1|]. split; [exact H2|].
  exact (proj1 (generateAnswer_model_failure {["OPENAI_API_KEY" := "sk-1"]}
                  (mkModels (λ _, ([Some (js "RC1 "); None; Some (js "adds")],
                                   Some (ThrownError (js "rate limit"))))
                            (λ _, inr []))
                  None _ (js "What is RC1?") (Some "gpt-4o")
                  (ThrownError (js "rate limit")) H1 H2)
           [Some (js "RC1 "); None; Some (js "adds")]
           eq_refl eq_refl eq_refl).
Defined.

(** The chunks written for the text blocks of a response are the texts of
    those blocks, each split into words. *)
Lemma text_blocks_words (content : list ContentBlock) :
  (content ≫= λ block,
     if bool_decide (block_type block = "text")
     then split_words (block_text block) else [])
  = (block_text <$> filter (λ block, block_type block = "text") content)
    ≫= split_words.
Proof.
  induction content as [|block content IH]; [reflexivity|].
  rewrite bind_cons, IH.
  destruct (decide (block_type block = "text")) as [Htext|Htext].
  - rewrite bool_decide_eq_true_2 by exact Htext.
    rewrite filter_cons_True by exact Htext.
    rewrite fmap_cons, bind_cons. reflexivity.
  - rewrite bool_decide_eq_false_2 by exact Htext.
    rewrite filter_cons_False by exact Htext. reflexivity.
Qed.

Lemma join_split_words (texts : list JsString) :
  mjoin (texts ≫= split_words) = mjoin texts.
Proof.
  induction texts as [|text texts IH]; [reflexivity|].
  rewrite bind_cons, join_app, IH. simpl. f_equal.
  by destruct (split_runs_spec [] false text) as [? _].
Qed.

(** X22. A successful answer cites its sources: with a search result, the
    key set, the stream open and the model not failing, the stream holds the
    answer, then the sources header, then one line ["- [title](/slug)"] per
    search result in rank order.  For "gpt-4o" the answer is the non-empty
    contents of the stream's chunks; for any other model it is the text
    blocks of the response, in order, each split into words, and those
    chunks joined give back the text of the blocks. *)
Theorem generateAnswer_cites_sources (env : gmap string string) (models : Models)
    (searchError : option JsString) (searchResults : list SearchResult)
    (question : JsString) (model : option string) :
  truthy searchError = false →
  searchResults ≠ [] →
  (∀ contents,
     model = Some "gpt-4o" →
     falsy (env !! "OPENAI_API_KEY") = false →
     openai_stream models (fullPrompt question searchResults) = (contents, None) →
     out_chunks
       (generateAnswer stays_open env models searchError searchResults question
          model)
     = omap (λ content, if truthy content then content else None) contents
       ++ SOURCES_HEADER :: (sourceLine <$> searchResults))
  ∧ (∀ content,
       model ≠ Some "gpt-4o" →
       falsy (env !! "ANTHROPIC_API_KEY") = false →
       anthropic_create models (fullPrompt question searchResults) = inr content →
       out_chunks
         (generateAnswer stays_open env models searchError searchResults
            question model)
       = ((block_text <$> filter (λ block, block_type block = "text") content)
          ≫= split_words)
         ++ SOURCES_HEADER :: (sourceLine <$> searchResults)
       ∧ mjoin ((block_text
                 <$> filter (λ block, block_type block = "text") content)
                ≫= split_words)
         = mjoin (block_text
                  <$> filter (λ block, block_type block = "text") content)).
Proof.
  intros Herror Hresults. split.
  - intros contents Hmodel Hkey Hstream. unfold generateAnswer.
    rewrite generateAnswer_try_searched by assumption. cbv zeta.
    rewrite bool_decide_eq_true_2 by exact Hmodel.
    rewrite Hkey, Hstream, !appendEach_open. reflexivity.
  - intros content Hmodel Hkey Hcreate. split; [|apply join_split_words].
    unfold generateAnswer.
    rewrite generateAnswer_try_searched by assumption. cbv zeta.
    rewrite bool_decide_eq_false_2 by exact Hmodel.
    rewrite Hkey, Hcreate, !appendEach_open.
    rewrite text_blocks_words. reflexivity.
Qed.

Lemma generateAnswer_cites_sources_witness :
  truthy None = false
  ∧ [mkSearchResult (js "RC1") (js "version-rc1") "post" (js "text")] ≠ []
  ∧ out_chunks
      (generateAnswer stays_open {["ANTHROPIC_API_KEY" := "sk-ant"]}
         (mkModels (λ _, ([], None))
                   (λ _, inr [mkContentBlock "tool_use" (js "search");
                              mkContentBlock "text" (js "RC1 adds search.")]))
         None [mkSearchResult (js "RC1") (js "version-rc1") "post" (js "text")]
         (js "What is RC1?") None)
    = [js "RC1"; js " "; js "adds"; js " "; js "search.";
       SOURCES_HEADER; js "- [RC1](/version-rc1)" ++ LF].
Proof.
  assert (H1 : truthy None = false) by reflexivity.
  assert (H2 : [mkSearchResult (js "RC1") (js "version-rc1") "post" (js "text")]
               ≠ []) by discriminate.
  split; [exact H1|]. split; [exact H2|].
  rewrite (proj1 (proj2 (generateAnswer_cites_sources
                           {["ANTHROPIC_API_KEY" := "sk-ant"]}
                           (mkModels (λ _, ([], None))
                                     (λ _, inr [mkContentBlock "tool_use" (js "search");
                                                mkContentBlock "text"
                                                  (js "RC1 adds search.")]))
                           None _ (js "What is RC1?") None H1 H2)
                        [mkContentBlock "tool_use" (js "search");
                         mkContentBlock "text" (js "RC1 adds search.")]
                        ltac:(discriminate) ltac:(reflexivity) ltac:(reflexivity))).
  vm_compute. reflexivity.
Defined.

(** * Search highlighting *)

Section Polling.

Implicit Types (startTime now t : Z) (runs : list (Z * option Container)).

Lemma attemptHighlight_late startTime now (container : option Container) :
  startTime + MAX_WAIT_TIME < now →
  attemptHighlight startTime now container = GaveUp.
Proof.
  intros Hlate. unfold attemptHighlight.
  rewrite bool_decide_eq_true_2 by lia. reflexivity.
Qed.

(** With [n] more timer periods to go before the deadline has surely
    passed, at most [n + 1] attempts are made, and the last of them does not
    schedule another one if that many callbacks run. *)
Lemma pollAttempts_bound (n : nat) startTime t runs :
  startTime + MAX_WAIT_TIME < t + POLL_INTERVAL * (Z.of_nat n + 1) →
  timers_due t runs →
  (length (pollAttempts startTime runs) ≤ n + 1)%nat
  ∧ ((n + 1 ≤ length runs)%nat →
     last (pollAttempts startTime runs) ≠ Some TriesAgain).
Proof.
  revert t runs. induction n as [|n IH]; intros t runs Hbudget Hdue.
  - destruct runs as [|[now container] rest]; simpl.
    + split; [lia|]. intros Hlen. lia.
    + destruct Hdue as [Hnow _].
      rewrite attemptHighlight_late by (unfold POLL_INTERVAL in *; lia).
      simpl. split; [lia|]. intros _. discriminate.
  - destruct runs as [|[now container] rest]; simpl.
    + split; [lia|]. intros Hlen. lia.
    + destruct Hdue as [Hnow Hdue].
      destruct (IH now rest) as [Hlen Hlast]; [lia|exact Hdue|].
      destruct (attemptHighlight startTime now container); simpl.
      * split; [lia|]. intros _. discriminate.
      * split; [lia|]. intros Hruns.
        rewrite last_cons.
        destruct (last (pollAttempts startTime rest)) as [a|] eqn:E.
        -- apply Hlast. lia.
        -- apply last_None in E.
           destruct rest as [|[now' container'] rest']; [simpl in Hruns; lia|].
           simpl in E. destruct (attemptHighlight startTime now' container');
             discriminate E.
      * split; [lia|]. intros _. discriminate.
Qed.

End Polling.

(** X23. Waiting for the content ends: when no timer callback runs earlier
    than [POLL_INTERVAL] after its timer was set, [attemptHighlight] runs at
    most 51 times after the effect started, whatever the container holds;
    and if 51 callbacks do run, the last attempt gives up or highlights
    instead of polling again. *)
Theorem pollAttempts_terminate (startTime : Z)
    (runs : list (Z * option Container)) :
  timers_due startTime runs →
  (length (pollAttempts startTime runs) ≤ 51)%nat
  ∧ ((51 ≤ length runs)%nat →
     last (pollAttempts startTime runs) ≠ Some TriesAgain).
Proof.
  intros Hdue.
  apply (pollAttempts_bound 50 startTime startTime runs); [|exact Hdue].
  unfold MAX_WAIT_TIME, POLL_INTERVAL. lia.
Qed.

Lemma pollAttempts_terminate_witness :
  timers_due 0 [(100, None); (200, Some (mkContainer 12 0));
                (301, Some (mkContainer 640 7))]
  ∧ Nat.le
      (length (pollAttempts 0 [(100, None); (200, Some (mkContainer 12 0));
                               (301, Some (mkContainer 640 7))]))
      51.
Proof.
  assert (H : timers_due 0 [(100, None); (200, Some (mkContainer 12 0));
                            (301, Some (mkContainer 640 7))]).
  { simpl. unfold POLL_INTERVAL. lia. }
  split; [exact H|].
  exact (proj1 (pollAttempts_terminate 0 _ H)).
Defined.

(** * A browsing session against the view log *)

Section Browsing.

Implicit Types (db : Db) (path pageType sessionId : string) (now : Z).

Lemma by_session_path_insert_other path pageType sessionId now other db :
  other ≠ path →
  by_session_path sessionId other (insert_pageView path pageType sessionId now db)
  = by_session_path sessionId other db.
Proof.
  intros Hne. unfold by_session_path, insert_pageView; simpl.
  rewrite filter_app, filter_cons_False by (simpl; intros [_ ?]; congruence).
  apply app_nil_r.
Qed.

Lemma recordPageView_one_event_each sessionId seen stamps db (v : Visit) :
  one_event_each sessionId seen stamps db →
  (∀ t, t ∈ stamps → visit_now v - t < DEDUP_WINDOW_MS) →
  one_event_each sessionId (visit_path v :: seen) (visit_now v :: stamps)
    (recordPageView (visit_now v) (visit_path v) (visit_pageType v) sessionId db).
Proof.
  intros Hinv Hwin.
  destruct (decide (visit_path v ∈ seen)) as [Hseen|Hnew].
  - destruct (proj1 (Hinv (visit_path v)) Hseen) as (e & He & Hstamp).
    rewrite (recordPageView_duplicate _ _ _ _ _ e).
    + intros path. destruct (Hinv path) as [Hin Hout]. split.
      * intros Hp. apply elem_of_cons in Hp as [->|Hp].
        -- exists e. split; [exact He|]. by right.
        -- destruct (Hin Hp) as (e' & He' & Hs'). exists e'.
           split; [exact He'|]. by right.
      * intros Hp. apply not_elem_of_cons in Hp as [_ Hp]. by apply Hout.
    + rewrite He. reflexivity.
    + specialize (Hwin _ Hstamp). lia.
  - rewrite recordPageView_no_recent
      by (rewrite (proj2 (Hinv (visit_path v)) Hnew); reflexivity).
    intros path. destruct (Hinv path) as [Hin Hout]. split.
    + intros Hp. apply elem_of_cons in Hp as [->|Hp].
      * rewrite by_session_path_insert, (proj2 (Hinv (visit_path v)) Hnew).
        eexists. split; [reflexivity|]. simpl. by left.
      * assert (path ≠ visit_path v) by (intros ->; contradiction).
        rewrite by_session_path_insert_other by assumption.
        destruct (Hin Hp) as (e' & He' & Hs'). exists e'.
        split; [exact He'|]. by right.
    + intros Hp. apply not_elem_of_cons in Hp as [Hne Hp].
      rewrite by_session_path_insert_other by assumption. by apply Hout.
Qed.

Lemma recordPageView_visits_one_event_each sessionId (visits : list Visit)
    seen stamps db :
  one_event_each sessionId seen stamps db →
  (∀ t v, t ∈ stamps → v ∈ visits → visit_now v - t < DEDUP_WINDOW_MS) →
  (∀ v v', v ∈ visits → v' ∈ visits →
           visit_now v' - visit_now v < DEDUP_WINDOW_MS) →
  ∃ stamps',
    one_event_each sessionId (reverse (visit_path <$> visits) ++ seen) stamps'
      (recordPageView_visits sessionId visits db).
Proof.
  revert seen stamps db.
  induction visits as [|v visits IH]; intros seen stamps db Hinv Hold Hpair.
  - exists stamps. exact Hinv.
  - simpl. rewrite reverse_cons, <- app_assoc. simpl.
    apply (IH (visit_path v :: seen) (visit_now v :: stamps)).
    + apply recordPageView_one_event_each; [exact Hinv|].
      intros t Ht. apply (Hold t v Ht). by left.
    + intros t v' Ht Hv'. apply elem_of_cons in Ht as [->|Ht].
      * apply Hpair; [by left|by right].
      * apply (Hold t v' Ht). by right.
    + intros v1 v2 H1 H2. apply Hpair; by right.
Qed.

End Browsing.

(** X24. One stored view per path and window: for a session with no stored
    event, after any sequence of [recordPageView] calls whose instants are
    pairwise less than [DEDUP_WINDOW_MS] apart, over any paths in any order,
    every visited path has exactly one stored event and every other path
    none. *)
Theorem recordPageView_visits_unique sessionId (visits : list Visit) db :
  (∀ path, by_session_path sessionId path db = []) →
  (∀ v v', v ∈ visits → v' ∈ visits →
           visit_now v' - visit_now v < DEDUP_WINDOW_MS) →
  ∀ path,
    length (by_session_path sessionId path
              (recordPageView_visits sessionId visits db))
    = if bool_decide (path ∈ visit_path <$> visits) then 1%nat else 0%nat.
Proof.
  intros Hnone Hpair path.
  destruct (recordPageView_visits_one_event_each sessionId visits [] [] db)
    as (stamps & Hinv).
  - intros p. split; [intros Hp; inversion Hp|intros _; apply Hnone].
  - intros t v Ht. inversion Ht.
  - exact Hpair.
  - rewrite app_nil_r in Hinv. destruct (Hinv path) as [Hin Hout].
    destruct (decide (path ∈ visit_path <$> visits)) as [Hp|Hp].
    + rewrite bool_decide_eq_true_2 by exact Hp.
      destruct Hin as (e & -> & _); [by apply elem_of_reverse|reflexivity].
    + rewrite bool_decide_eq_false_2 by exact Hp.
      rewrite Hout; [reflexivity|]. by rewrite elem_of_reverse.
Qed.

Lemma recordPageView_visits_unique_witness :
  (∀ path, by_session_path "S1" path emptyDb = [])
  ∧ (∀ v v',
       v ∈ [mkVisit 0 "/" "home"; mkVisit 60000 "/docs" "page";
            mkVisit 1500000 "/" "home"] →
       v' ∈ [mkVisit 0 "/" "home"; mkVisit 60000 "/docs" "page";
             mkVisit 1500000 "/" "home"] →
       visit_now v' - visit_now v < DEDUP_WINDOW_MS)
  ∧ length (by_session_path "S1" "/"
              (recordPageView_visits "S1"
                 [mkVisit 0 "/" "home"; mkVisit 60000 "/docs" "page";
                  mkVisit 1500000 "/" "home"] emptyDb))
    = 1%nat.
Proof.
  assert (H1 : ∀ path, by_session_path "S1" path emptyDb = [])
    by (intros path; reflexivity).
  assert (H2 : ∀ v v',
             v ∈ [mkVisit 0 "/" "home"; mkVisit 60000 "/docs" "page";
                  mkVisit 1500000 "/" "home"] →
             v' ∈ [mkVisit 0 "/" "home"; mkVisit 60000 "/docs" "page";
                   mkVisit 1500000 "/" "home"] →
             visit_now v' - visit_now v < DEDUP_WINDOW_MS).
  { intros v v' Hv Hv'.
    repeat (apply elem_of_cons in Hv as [->|Hv]);
      repeat (apply elem_of_cons in Hv' as [->|Hv']);
      try (by inversion Hv); try (by inversion Hv');
      simpl; unfold DEDUP_WINDOW_MS; lia. }
  split; [exact H1|]. split; [exact H2|].
  exact (recordPageView_visits_unique "S1" _ emptyDb H1 H2 "/").
Defined.
